(** * AI Tarot Music: a shallow embedding of [app.py]

    The program is a straight-line pipeline over three HTTP services (a tarot
    card API, a chat-completion API and a music catalogue).  The embedding
    keeps the shape of the Python source:

    - Python [str] values are [string]s holding the UTF-8 bytes of the text;
    - values decoded from JSON are the inductive type [json];
    - [requests] calls run in a small state-and-exception monad [Net] whose
      state is the list of requests sent so far, the remote services being a
      function from that history and the request to a reply;
    - the Streamlit script runs in [App], which adds the list of widgets
      rendered and the [st.stop()] outcome.

    Library functions the program calls ([str.strip], [str.join],
    [json.loads], [raise_for_status], subscripts, [dict.get], truth tests,
    iteration) are modelled in the first sections; the functions of [app.py]
    follow under their own names. *)

From Stdlib Require Import String Ascii List ZArith Bool Lia.
Import ListNotations.
Open Scope string_scope.
Open Scope Z_scope.

(** ** Characters and strings *)

Definition code (c : ascii) : nat := nat_of_ascii c.

(** The double quote, named so that no literal has to contain one. *)
Definition dquote : ascii := "034"%char.

(** Literals of JSON texts and HTML are written with single quotes and
    turned into double quotes by [dq]. *)
Fixpoint dq (s : string) : string :=
  match s with
  | EmptyString => EmptyString
  | String c r => String (if (c =? "'")%char then dquote else c) (dq r)
  end.

Fixpoint rev_string (acc s : string) : string :=
  match s with
  | EmptyString => acc
  | String c r => rev_string (String c acc) r
  end.

Definition string_rev (s : string) : string := rev_string EmptyString s.

(** [sep.join(parts)] for a list of [str]. *)
Fixpoint join (sep : string) (parts : list string) : string :=
  match parts with
  | [] => EmptyString
  | [p] => p
  | p :: rest => p ++ sep ++ join sep rest
  end.

(** *** [str.strip()]

    With no argument [strip] removes, at both ends, every character for which
    [str.isspace] holds.  On the UTF-8 bytes these are the one-byte
    characters U+0009..U+000D, U+001C..U+001F and U+0020, the two-byte
    U+0085 and U+00A0, and the three-byte U+1680, U+2000..U+200A, U+2028,
    U+2029, U+202F, U+205F and U+3000. *)

Definition is_space1 (c : ascii) : bool :=
  let n := code c in
  ((9 <=? n) && (n <=? 13) || (28 <=? n) && (n <=? 32))%nat.

Definition is_space2 (c1 c2 : ascii) : bool :=
  ((code c1 =? 194) && ((code c2 =? 133) || (code c2 =? 160)))%nat.

Definition is_space3 (c1 c2 c3 : ascii) : bool :=
  let '(a, b, c) := (code c1, code c2, code c3) in
  ((a =? 225) && (b =? 154) && (c =? 128)
   || (a =? 226) && (b =? 128)
      && ((128 <=? c) && (c <=? 138) || (c =? 168) || (c =? 169) || (c =? 175))
   || (a =? 226) && (b =? 129) && (c =? 159)
   || (a =? 227) && (b =? 128) && (c =? 128))%nat.

Fixpoint lstrip (s : string) : string :=
  match s with
  | EmptyString => s
  | String c1 r1 =>
      if is_space1 c1 then lstrip r1
      else
        match r1 with
        | EmptyString => s
        | String c2 r2 =>
            if is_space2 c1 c2 then lstrip r2
            else
              match r2 with
              | EmptyString => s
              | String c3 r3 => if is_space3 c1 c2 c3 then lstrip r3 else s
              end
        end
  end.

(** The same scan from the right end, on the reversed bytes. *)
Fixpoint lstrip_rev (s : string) : string :=
  match s with
  | EmptyString => s
  | String c1 r1 =>
      if is_space1 c1 then lstrip_rev r1
      else
        match r1 with
        | EmptyString => s
        | String c2 r2 =>
            if is_space2 c2 c1 then lstrip_rev r2
            else
              match r2 with
              | EmptyString => s
              | String c3 r3 => if is_space3 c3 c2 c1 then lstrip_rev r3 else s
              end
        end
  end.

Definition rstrip (s : string) : string := string_rev (lstrip_rev (string_rev s)).

Definition strip (s : string) : string := rstrip (lstrip s).

(** ** Values decoded from JSON

    [json.loads] yields [None], [bool], [int], [float], [str], [list] and
    [dict] values.  An [int] is a [Z].  A [float] is kept as the exact decimal
    the literal denotes, [mant * 10 ^ exp10] with its sign apart (so that
    [-0.0] is a value of its own); the rounding to a double is not modelled,
    and nothing below compares two floats.  A [dict] is the list of its items
    in insertion order, with no key twice. *)

Unset Elimination Schemes.
Inductive json : Type :=
| JNull
| JBool (b : bool)
| JInt (n : Z)
| JFloat (neg : bool) (mant : Z) (exp10 : Z)
| JNaN
| JInf (neg : bool)
| JStr (s : string)
| JArr (items : list json)
| JObj (fields : list (string * json)).
Set Elimination Schemes.

Fixpoint dict_lookup (key : string) (d : list (string * json)) : option json :=
  match d with
  | [] => None
  | (k, v) :: rest => if String.eqb k key then Some v else dict_lookup key rest
  end.

(** [d[key] = v]: a key already present keeps its place. *)
Fixpoint dict_set (key : string) (v : json) (d : list (string * json))
  : list (string * json) :=
  match d with
  | [] => [(key, v)]
  | (k, w) :: rest =>
      if String.eqb k key then (k, v) :: rest else (k, w) :: dict_set key v rest
  end.

(** ** [json.loads]

    A model of the decoder of Python's [json] module with its default
    settings ([strict] strings, [NaN] and [Infinity] accepted): the scanner
    [scan_once] with [JSONArray], [JSONObject], [scanstring] and the number
    pattern, then [decode], which skips white space on both sides and refuses
    trailing data.  The recursion limit of the interpreter and the digit limit
    of [int] are not modelled. *)

Module Json.

Definition is_ws (c : ascii) : bool :=
  ((c =? " ") || (c =? "009") || (c =? "010") || (c =? "013"))%char.

Fixpoint skip_ws (s : string) : string :=
  match s with
  | String c r => if is_ws c then skip_ws r else s
  | EmptyString => s
  end.

Definition is_digit (c : ascii) : bool :=
  ((48 <=? code c) && (code c <=? 57))%nat.

Definition digit_val (c : ascii) : Z := Z.of_nat (code c) - 48.

(** The longest run of digits at the head of [s], and what follows it. *)
Fixpoint span_digits (s : string) : string * string :=
  match s with
  | String c r =>
      if is_digit c then let (d, rest) := span_digits r in (String c d, rest)
      else (EmptyString, s)
  | EmptyString => (EmptyString, EmptyString)
  end.

Fixpoint digits_val (acc : Z) (s : string) : Z :=
  match s with
  | String c r => digits_val (10 * acc + digit_val c) r
  | EmptyString => acc
  end.

(** [s] without the prefix [p], when it starts with it. *)
Fixpoint strip_prefix (p s : string) : option string :=
  match p, s with
  | EmptyString, _ => Some s
  | String a p', String b s' => if (a =? b)%char then strip_prefix p' s' else None
  | String _ _, EmptyString => None
  end.

(** *** Numbers

    The pattern [NUMBER_RE]: an optional minus sign and an integer part
    (a single 0, or a non-zero digit and more digits), then optionally a
    fraction (a dot and at least one digit), then optionally an exponent
    (e or E, an optional sign, at least one digit).  A literal with neither
    fraction nor exponent is an [int], any other a [float]. *)

Definition scan_int (s : string) : option (string * string) :=
  match s with
  | String c r =>
      if (c =? "0")%char then Some ("0", r)
      else if is_digit c then Some (span_digits s)
      else None
  | EmptyString => None
  end.

Definition scan_frac (s : string) : option (string * string) :=
  match s with
  | String c r =>
      if (c =? ".")%char then
        match span_digits r with
        | (EmptyString, _) => None
        | (d, rest) => Some (d, rest)
        end
      else None
  | EmptyString => None
  end.

Definition scan_exp (s : string) : option (Z * string) :=
  match s with
  | String c r =>
      if ((c =? "e") || (c =? "E"))%char then
        let '(neg, r1) :=
          match r with
          | String sg r' =>
              if (sg =? "-")%char then (true, r')
              else if (sg =? "+")%char then (false, r')
              else (false, r)
          | EmptyString => (false, r)
          end in
        match span_digits r1 with
        | (EmptyString, _) => None
        | (d, rest) =>
            Some (if neg then - digits_val 0 d else digits_val 0 d, rest)
        end
      else None
  | EmptyString => None
  end.

(** [parse_int] of the integer part, or [parse_float] of the whole literal. *)
Definition number_value (neg : bool) (ip : string) (fp : option string) (ex : option Z)
  : json :=
  match fp, ex with
  | None, None => JInt (if neg then - digits_val 0 ip else digits_val 0 ip)
  | _, _ =>
      let d := match fp with Some d => d | None => EmptyString end in
      let e := match ex with Some e => e | None => 0 end in
      JFloat neg (digits_val (digits_val 0 ip) d) (e - Z.of_nat (String.length d))
  end.

(** The literal after its sign. *)
Definition scan_unsigned (neg : bool) (s : string) : option (json * string) :=
  match scan_int s with
  | None => None
  | Some (ip, r1) =>
      let '(fp, r2) :=
        match scan_frac r1 with
        | Some (d, r) => (Some d, r)
        | None => (None, r1)
        end in
      let '(ex, r3) :=
        match scan_exp r2 with
        | Some (e, r) => (Some e, r)
        | None => (None, r2)
        end in
      Some (number_value neg ip fp ex, r3)
  end.

Definition match_number (s : string) : option (json * string) :=
  match s with
  | String c r => if (c =? "-")%char then scan_unsigned true r else scan_unsigned false s
  | EmptyString => None
  end.

(** *** Strings *)

Definition hex_val (c : ascii) : option N :=
  let n := code c in
  if ((48 <=? n) && (n <=? 57))%nat then Some (N.of_nat (n - 48))
  else if ((65 <=? n) && (n <=? 70))%nat then Some (N.of_nat (n - 55))
  else if ((97 <=? n) && (n <=? 102))%nat then Some (N.of_nat (n - 87))
  else None.

(** [_decode_uXXXX]: four hexadecimal digits. *)
Definition hex4 (a b c d : ascii) : option N :=
  match hex_val a, hex_val b, hex_val c, hex_val d with
  | Some x, Some y, Some z, Some w => Some (((x * 16 + y) * 16 + z) * 16 + w)%N
  | _, _, _, _ => None
  end.

Definition byte_of (n : N) : ascii := ascii_of_N n.

(** The UTF-8 bytes of [chr(u)]; a lone surrogate, which a Python [str] can
    hold, takes the three-byte form. *)
Definition utf8 (u : N) : string :=
  (if u <? 128 then String (byte_of u) EmptyString
   else if u <? 2048 then
     String (byte_of (192 + u / 64)) (String (byte_of (128 + u mod 64)) EmptyString)
   else if u <? 65536 then
     String (byte_of (224 + u / 4096))
       (String (byte_of (128 + (u / 64) mod 64))
          (String (byte_of (128 + u mod 64)) EmptyString))
   else
     String (byte_of (240 + u / 262144))
       (String (byte_of (128 + (u / 4096) mod 64))
          (String (byte_of (128 + (u / 64) mod 64))
             (String (byte_of (128 + u mod 64)) EmptyString))))%N.

(** The table [BACKSLASH]. *)
Definition unescape (c : ascii) : option ascii :=
  if (c =? dquote)%char then Some dquote
  else if (c =? "\")%char then Some "\"%char
  else if (c =? "/")%char then Some "/"%char
  else if (c =? "b")%char then Some "008"%char
  else if (c =? "f")%char then Some "012"%char
  else if (c =? "n")%char then Some "010"%char
  else if (c =? "r")%char then Some "013"%char
  else if (c =? "t")%char then Some "009"%char
  else None.

Definition is_high_surrogate (u : N) : bool := ((55296 <=? u) && (u <=? 56319))%N.
Definition is_low_surrogate (u : N) : bool := ((56320 <=? u) && (u <=? 57343))%N.

Definition emit (chunk : string) (k : option (string * string))
  : option (string * string) :=
  match k with
  | Some (body, rest) => Some (chunk ++ body, rest)
  | None => None
  end.

(** [scanstring], entered after the opening quote: the decoded text and what
    follows the closing quote. *)
Fixpoint scanstring (s : string) : option (string * string) :=
  match s with
  | EmptyString => None
  | String c r =>
      if (c =? dquote)%char then Some (EmptyString, r)
      else if (c =? "\")%char then
        match r with
        | EmptyString => None
        | String e r1 =>
            if (e =? "u")%char then
              match r1 with
              | String h1 (String h2 (String h3 (String h4 r2))) =>
                  match hex4 h1 h2 h3 h4 with
                  | None => None
                  | Some uni =>
                      match r2 with
                      | String b (String u r3) =>
                          if is_high_surrogate uni && (b =? "\")%char && (u =? "u")%char
                          then
                            match r3 with
                            | String g1 (String g2 (String g3 (String g4 r4))) =>
                                match hex4 g1 g2 g3 g4 with
                                | None => None
                                | Some uni2 =>
                                    if is_low_surrogate uni2 then
                                      emit (utf8 (65536 + (uni - 55296) * 1024
                                                  + (uni2 - 56320))%N)
                                           (scanstring r4)
                                    else emit (utf8 uni) (scanstring r2)
                                end
                            | _ => None
                            end
                          else emit (utf8 uni) (scanstring r2)
                      | _ => emit (utf8 uni) (scanstring r2)
                      end
                  end
              | _ => None
              end
            else
              match unescape e with
              | Some ch => emit (String ch EmptyString) (scanstring r1)
              | None => None
              end
        end
      else if (code c <? 32)%nat then None
      else emit (String c EmptyString) (scanstring r)
  end.

(** *** Values *)

Definition keyword (word : string) (v : json) (s : string) : option (json * string) :=
  match strip_prefix word s with
  | Some r => Some (v, r)
  | None => None
  end.

Definition orelse {A} (x y : option A) : option A :=
  match x with
  | Some _ => x
  | None => y
  end.

(** The scalar cases of [scan_once], in its order. *)
Definition scan_atom (s : string) : option (json * string) :=
  orelse (keyword "null" JNull s)
  (orelse (keyword "true" (JBool true) s)
  (orelse (keyword "false" (JBool false) s)
  (orelse (match_number s)
  (orelse (keyword "NaN" JNaN s)
  (orelse (keyword "Infinity" (JInf false) s)
          (keyword "-Infinity" (JInf true) s)))))).

(** [scan_once] with [JSONArray] ([elements], entered where a value starts)
    and [JSONObject] ([members], entered after the opening quote of a key).
    [fuel] bounds the number of nested calls; [loads] gives enough of it. *)
Fixpoint scan_once (fuel : nat) (s : string) : option (json * string) :=
  match fuel with
  | O => None
  | S f =>
      match s with
      | EmptyString => None
      | String c r =>
          if (c =? dquote)%char then
            match scanstring r with
            | Some (t, rest) => Some (JStr t, rest)
            | None => None
            end
          else if (c =? "{")%char then
            match skip_ws r with
            | String c1 r1 =>
                if (c1 =? "}")%char then Some (JObj [], r1)
                else if (c1 =? dquote)%char then members f [] r1
                else None
            | EmptyString => None
            end
          else if (c =? "[")%char then
            match skip_ws r with
            | String c1 r1 =>
                if (c1 =? "]")%char then Some (JArr [], r1)
                else elements f [] (skip_ws r)
            | EmptyString => None
            end
          else scan_atom s
      end
  end
with elements (fuel : nat) (acc : list json) (s : string) : option (json * string) :=
  match fuel with
  | O => None
  | S f =>
      match scan_once f s with
      | None => None
      | Some (v, r) =>
          match skip_ws r with
          | String c r1 =>
              if (c =? "]")%char then Some (JArr (acc ++ [v]), r1)
              else if (c =? ",")%char then elements f (acc ++ [v]) (skip_ws r1)
              else None
          | EmptyString => None
          end
      end
  end
with members (fuel : nat) (acc : list (string * json)) (s : string)
  : option (json * string) :=
  match fuel with
  | O => None
  | S f =>
      match scanstring s with
      | None => None
      | Some (key, r) =>
          match skip_ws r with
          | String c r1 =>
              if (c =? ":")%char then
                match scan_once f (skip_ws r1) with
                | None => None
                | Some (v, r2) =>
                    match skip_ws r2 with
                    | String c2 r3 =>
                        if (c2 =? "}")%char then Some (JObj (dict_set key v acc), r3)
                        else if (c2 =? ",")%char then
                          match skip_ws r3 with
                          | String c3 r4 =>
                              if (c3 =? dquote)%char
                              then members f (dict_set key v acc) r4
                              else None
                          | EmptyString => None
                          end
                        else None
                    | EmptyString => None
                    end
                end
              else None
          | EmptyString => None
          end
      end
  end.

(** [JSONDecoder.decode]: white space, one value, white space, end of text. *)
Definition decode (fuel : nat) (s : string) : option json :=
  match scan_once fuel (skip_ws s) with
  | Some (v, r) =>
      match skip_ws r with
      | EmptyString => Some v
      | String _ _ => None
      end
  | None => None
  end.

Definition loads (s : string) : option json := decode (S (String.length s)) s.

End Json.

(** ** Exceptions and results *)

Inductive pyexc : Type :=
| ConnectionError            (* [requests] could not complete the exchange *)
| HTTPError (status : Z)     (* [raise_for_status] *)
| JSONDecodeError            (* [resp.json()], [json.loads] *)
| KeyError (key : json)
| IndexError
| TypeError
| AttributeError
| StreamlitAPIException.

Inductive result (A : Type) : Type :=
| Ok (a : A)
| Raise (e : pyexc).
Arguments Ok {A} a.
Arguments Raise {A} e.

Definition rbind {A B} (x : result A) (k : A -> result B) : result B :=
  match x with
  | Ok a => k a
  | Raise e => Raise e
  end.

Declare Scope py_scope.
Delimit Scope py_scope with py.
Notation "x <- c ;; k" := (rbind c (fun x => k))
  (at level 61, c at next level, right associativity) : py_scope.

(** ** Operations of Python on decoded values *)

(** [float(literal) != 0.0]: the literal rounds to zero exactly when it is at
    most [2 ^ -1075] (half the least subnormal, the tie going to even). *)
Definition float_nonzero (mant exp10 : Z) : bool :=
  if mant =? 0 then false
  else if 0 <=? exp10 then true
  else 10 ^ (- exp10) <? mant * 2 ^ 1075.

(** The truth value of [v], as [if not v] tests it. *)
Definition truthy (v : json) : bool :=
  match v with
  | JNull => false
  | JBool b => b
  | JInt n => negb (n =? 0)
  | JFloat _ m e => float_nonzero m e
  | JNaN => true
  | JInf _ => true
  | JStr s => negb (String.eqb s EmptyString)
  | JArr l => match l with [] => false | _ :: _ => true end
  | JObj d => match d with [] => false | _ :: _ => true end
  end.

(** The characters of a [str]: a byte of the form 10xxxxxx continues the
    character before it. *)
Definition is_continuation (c : ascii) : bool :=
  ((128 <=? code c) && (code c <? 192))%nat.

Fixpoint chars_from (cur s : string) : list string :=
  match s with
  | EmptyString => [cur]
  | String c r =>
      if is_continuation c then chars_from (cur ++ String c EmptyString) r
      else cur :: chars_from (String c EmptyString) r
  end.

Definition utf8_chars (s : string) : list string :=
  match s with
  | EmptyString => []
  | String c r => chars_from (String c EmptyString) r
  end.

(** [v[key]] for a [str] key. *)
Definition getitem (v : json) (key : string) : result json :=
  match v with
  | JObj d =>
      match dict_lookup key d with
      | Some x => Ok x
      | None => Raise (KeyError (JStr key))
      end
  | _ => Raise TypeError
  end.

Definition index_list {A} (l : list A) (i : Z) : result A :=
  let n := Z.of_nat (List.length l) in
  let j := if i <? 0 then i + n else i in
  if (0 <=? j) && (j <? n) then
    match nth_error l (Z.to_nat j) with
    | Some x => Ok x
    | None => Raise IndexError
    end
  else Raise IndexError.

(** [v[i]] for an [int] index. *)
Definition getitem_int (v : json) (i : Z) : result json :=
  match v with
  | JArr l => index_list l i
  | JStr s =>
      match index_list (utf8_chars s) i with
      | Ok c => Ok (JStr c)
      | Raise e => Raise e
      end
  | JObj _ => Raise (KeyError (JInt i))
  | _ => Raise TypeError
  end.

(** [v.get(key, default)]: only a [dict] has the method. *)
Definition dict_get (v : json) (key : string) (default : json) : result json :=
  match v with
  | JObj d =>
      match dict_lookup key d with
      | Some x => Ok x
      | None => Ok default
      end
  | _ => Raise AttributeError
  end.

(** The items [for t in v] visits: the elements of a list, the keys of a
    dict, the characters of a str; nothing else here is iterable. *)
Definition py_iter (v : json) : result (list json) :=
  match v with
  | JArr l => Ok l
  | JObj d => Ok (map (fun kv => JStr (fst kv)) d)
  | JStr s => Ok (map JStr (utf8_chars s))
  | _ => Raise TypeError
  end.

(** [v.strip()]: a method of [str]. *)
Definition str_strip (v : json) : result string :=
  match v with
  | JStr s => Ok (strip s)
  | _ => Raise AttributeError
  end.

(** A value used where a [str] is required (concatenation to a [str],
    an item of [str.join]). *)
Definition as_str (v : json) : result string :=
  match v with
  | JStr s => Ok s
  | _ => Raise TypeError
  end.

Fixpoint all_str (l : list json) : result (list string) :=
  match l with
  | [] => Ok []
  | v :: rest =>
      (s <- as_str v ;; ss <- all_str rest ;; Ok (s :: ss))%py
  end.

(** What [sep.join(v)] requires of [v]: an iterable whose items are all
    [str]; the items are returned. *)
Definition str_items (v : json) : result (list string) :=
  (items <- py_iter v ;; all_str items)%py.

(** ** HTTP through [requests] *)

Inductive method : Type := GET | POST.

Record request : Type := mk_request {
  meth : method;
  url : string;
  headers : list (string * string);
  params : list (string * json);           (* [params=], the query string *)
  form : list (string * option string);    (* [data=], a form body *)
  payload : option json                    (* [json=], a JSON body *)
}.

Record response : Type := mk_response {
  status_code : Z;
  text : string
}.

(** The services: the reply to a request, given the requests sent before it;
    [None] when no response arrives. *)
Definition server : Type := list request -> request -> option response.

(** Computations that send requests: the state is the list of the requests
    sent so far, oldest first. *)
Definition Net (A : Type) : Type :=
  server -> list request -> result A * list request.

Definition ret {A} (a : A) : Net A := fun _ h => (Ok a, h).

Definition bind {A B} (m : Net A) (k : A -> Net B) : Net B :=
  fun srv h =>
    match m srv h with
    | (Ok a, h') => k a srv h'
    | (Raise e, h') => (Raise e, h')
    end.

Definition lift {A} (r : result A) : Net A := fun _ h => (r, h).

Declare Scope net_scope.
Delimit Scope net_scope with net.
Notation "x <- c ;; k" := (bind c (fun x => k))
  (at level 61, c at next level, right associativity) : net_scope.
Notation "c ;;; k" := (bind c (fun _ => k))
  (at level 61, right associativity) : net_scope.

Definition send (rq : request) : Net response :=
  fun srv h =>
    match srv h rq with
    | Some resp => (Ok resp, (h ++ [rq])%list)
    | None => (Raise ConnectionError, (h ++ [rq])%list)
    end.

Definition requests_get (u : string) (hd : list (string * string))
           (ps : list (string * json)) : Net response :=
  send (mk_request GET u hd ps [] None).

Definition requests_post_json (u : string) (hd : list (string * string))
           (body : json) : Net response :=
  send (mk_request POST u hd [] [] (Some body)).

Definition requests_post_form (u : string) (fields : list (string * option string))
  : Net response :=
  send (mk_request POST u [] [] fields None).

(** [resp.raise_for_status()]: statuses 400 to 599 raise. *)
Definition raise_for_status (resp : response) : result unit :=
  if (400 <=? status_code resp) && (status_code resp <? 600)
  then Raise (HTTPError (status_code resp))
  else Ok tt.

(** [resp.json()] *)
Definition resp_json (resp : response) : result json :=
  match Json.loads (text resp) with
  | Some v => Ok v
  | None => Raise JSONDecodeError
  end.

(** ** The program: configuration and constants *)

(** The three values read from the environment with [os.getenv] when the
    module is loaded; [None] for a variable that is not set. *)
Record config : Type := mk_config {
  GROQ_API_KEY : option string;
  SPOTIFY_CLIENT_ID : option string;
  SPOTIFY_CLIENT_SECRET : option string
}.

Definition GROQ_API_URL : string := "https://api.groq.com/openai/v1/chat/completions".
Definition TAROT_API_URL : string := "https://tarotapi.dev/api/v1".
Definition TAROT_IMAGE_BASE : string := "https://www.sacred-texts.com/tarot/pkt/img".
Definition SPOTIFY_TOKEN_URL : string := "https://accounts.spotify.com/api/token".
Definition SPOTIFY_SEARCH_URL : string := "https://api.spotify.com/v1/search".

Definition CONTEXTS : list string :=
  ["Career"; "Love"; "Health"; "Spirituality";
   "Finances"; "Family"; "Creativity"; "Personal Growth"].

(** An optional [str] inside an f-string: [None] prints as its name. *)
Definition fmt_opt (v : option string) : string :=
  match v with
  | Some s => s
  | None => "None"
  end.

(** ** The functions of [app.py]

    Each function is typed by its annotations.  Where the script hands a
    decoded value to a parameter annotated [str] or [list[str]], the
    [TypeError] that the callee's first use of the value would raise is
    raised by the conversion at the call (see [main_block]). *)

Definition draw_tarot_cards (n : Z) : Net json :=
  (resp <- requests_get (TAROT_API_URL ++ "/cards/random") [] [("n", JInt n)] ;;
   lift (raise_for_status resp) ;;;
   body <- lift (resp_json resp) ;;
   lift (getitem body "cards"))%net.

Definition build_prompt (cards : list string) (context : string) : string :=
  "
You are a reflective assistant combining tarot symbolism and music psychology.
You do not predict the future. You provide grounded, introspective interpretations.

Tarot cards drawn:
" ++ join ", " cards ++ "

Context:
" ++ context ++ "

Tasks:
1. Interpret the tarot reading
2. Identify emotional themes
3. Recommend 3 music genres or styles
4. Explain why each recommendation fits

Respond clearly and thoughtfully.
".

Definition groq_headers (cfg : config) : list (string * string) :=
  [("Authorization", "Bearer " ++ fmt_opt (GROQ_API_KEY cfg));
   ("Content-Type", "application/json")].

Definition chat_payload (content : string) (max_tokens : Z) (temperature : json) : json :=
  JObj [("model", JStr "llama-3.1-8b-instant");
        ("messages", JArr [JObj [("role", JStr "user"); ("content", JStr content)]]);
        ("max_tokens", JInt max_tokens);
        ("temperature", temperature)].

(** [resp.json()["choices"][0]["message"]["content"]] *)
Definition message_content (body : json) : result json :=
  (choices <- getitem body "choices" ;;
   first <- getitem_int choices 0 ;;
   message <- getitem first "message" ;;
   getitem message "content")%py.

Definition get_tarot_reading (cfg : config) (cards : list string) (context : string)
  : Net json :=
  let prompt := build_prompt cards context in
  let payload := chat_payload prompt 512 (JFloat false 7 (-1)) in
  (resp <- requests_post_json GROQ_API_URL (groq_headers cfg) payload ;;
   lift (raise_for_status resp) ;;;
   body <- lift (resp_json resp) ;;
   lift (message_content body))%net.

Definition extraction_instruction : string :=
  "From the following text, extract ONLY the music genre/style names "
  ++ "as a JSON list of strings. Return ONLY the JSON array, nothing else."
  ++ String "010" (String "010" EmptyString).

Definition extract_genres (cfg : config) (reading_text : string) : Net json :=
  let payload :=
    chat_payload (extraction_instruction ++ reading_text) 100 (JFloat false 0 (-1)) in
  (resp <- requests_post_json GROQ_API_URL (groq_headers cfg) payload ;;
   lift (raise_for_status resp) ;;;
   body <- lift (resp_json resp) ;;
   content <- lift (message_content body) ;;
   raw <- lift (str_strip content) ;;
   match Json.loads raw with
   | Some v => ret v
   | None => lift (Raise JSONDecodeError)
   end)%net.

Definition get_spotify_token (cfg : config) : Net json :=
  (resp <- requests_post_form SPOTIFY_TOKEN_URL
             [("grant_type", Some "client_credentials");
              ("client_id", SPOTIFY_CLIENT_ID cfg);
              ("client_secret", SPOTIFY_CLIENT_SECRET cfg)] ;;
   lift (raise_for_status resp) ;;;
   body <- lift (resp_json resp) ;;
   lift (getitem body "access_token"))%net.

(** The dict built for each track: five fixed keys. *)
Record track : Type := mk_track {
  track_id : json;
  track_name : json;
  track_artist : json;
  track_genre : string;
  track_url : json
}.

(** The body of [for t in tracks]: one entry appended to [all_tracks]. *)
Definition track_entry (genre : string) (t : json) : result track :=
  (i <- getitem t "id" ;;
   n <- getitem t "name" ;;
   artists <- getitem t "artists" ;;
   first <- getitem_int artists 0 ;;
   a <- getitem first "name" ;;
   urls <- getitem t "external_urls" ;;
   u <- getitem urls "spotify" ;;
   Ok (mk_track i n a genre u))%py.

Fixpoint append_tracks (genre : string) (tracks : list json) (all_tracks : list track)
  : result (list track) :=
  match tracks with
  | [] => Ok all_tracks
  | t :: rest =>
      (entry <- track_entry genre t ;;
       append_tracks genre rest (all_tracks ++ [entry]))%py
  end.

Definition search_params (q : string) (limit : Z) : list (string * json) :=
  [("q", JStr q); ("type", JStr "track"); ("limit", JInt limit)].

(** [resp.json().get("tracks", {}).get("items", [])] *)
Definition track_items (resp : response) : result json :=
  (body <- resp_json resp ;;
   tracks <- dict_get body "tracks" (JObj []) ;;
   dict_get tracks "items" (JArr []))%py.

(** The loop [for genre in genres] with its accumulator [all_tracks]. *)
Fixpoint search_loop (hd : list (string * string)) (limit : Z)
         (genres : list string) (all_tracks : list track) : Net (list track) :=
  match genres with
  | [] => ret all_tracks
  | genre :: rest =>
      let params := search_params ("genre:" ++ genre) limit in
      (resp <- requests_get SPOTIFY_SEARCH_URL hd params ;;
       tracks <- lift (track_items resp) ;;
       tracks <- (if truthy tracks then ret tracks
                  else
                    let params := dict_set "q" (JStr genre) params in
                    resp <- requests_get SPOTIFY_SEARCH_URL hd params ;;
                    lift (track_items resp)) ;;
       items <- lift (py_iter tracks) ;;
       all_tracks <- lift (append_tracks genre items all_tracks) ;;
       search_loop hd limit rest all_tracks)%net
  end.

Definition search_tracks (genres : list string) (token : string) (limit : Z)
  : Net (list track) :=
  let headers := [("Authorization", "Bearer " ++ token)] in
  search_loop headers limit genres [].

Definition default_limit : Z := 3.

(** ** The Streamlit script *)

(** How Python prints values inside f-strings: [str(e)] for an exception and
    the text of a decoded value that is not a [str] are left to the
    interpreter and the libraries, and taken as given. *)
Record rendering : Type := mk_rendering {
  exc_str : pyexc -> string;
  repr : json -> string
}.

(** [f"{v}"] *)
Definition format (R : rendering) (v : json) : string :=
  match v with
  | JStr s => s
  | _ => repr R v
  end.

(** What the script puts on the page, in order. *)
Inductive widget : Type :=
| PageConfig (page_title page_icon layout : string)
| Markdown (body : json) (unsafe_allow_html : bool)
| Title (body : string)
| Header (body : string)
| Slider (label : string) (min_value max_value value : Z)
| Selectbox (label : string) (options : list string)
| Caption (body : string)
| Button (label : string)
| Spinner (body : string)
| Error (body : string)
| Warning (body : string)
| Subheader (body : string)
| Columns (spec : Z)
| Image (image : string) (caption : json) (width : Z)
| Write (body : string)
| Html (html : string) (height : Z)
| InSidebar (w : widget)
| InColumn (i : nat) (w : widget).

(** How a run of the script ends: it reaches its end, [st.stop()] halts it,
    or an exception leaves it. *)
Inductive outcome (A : Type) : Type :=
| Done (a : A)
| Stopped
| Uncaught (e : pyexc).
Arguments Done {A} a.
Arguments Stopped {A}.
Arguments Uncaught {A} e.

Record session : Type := mk_session {
  sent : list request;     (* the requests made so far *)
  page : list widget       (* the widgets rendered so far *)
}.

Definition App (A : Type) : Type := server -> session -> outcome A * session.

Definition aret {A} (a : A) : App A := fun _ s => (Done a, s).

Definition abind {A B} (m : App A) (k : A -> App B) : App B :=
  fun srv s =>
    match m srv s with
    | (Done a, s') => k a srv s'
    | (Stopped, s') => (Stopped, s')
    | (Uncaught e, s') => (Uncaught e, s')
    end.

Declare Scope app_scope.
Delimit Scope app_scope with app.
Notation "x <- c ;; k" := (abind c (fun x => k))
  (at level 61, c at next level, right associativity) : app_scope.
Notation "c ;;; k" := (abind c (fun _ => k))
  (at level 61, right associativity) : app_scope.

Definition show (w : widget) : App unit :=
  fun _ s => (Done tt, mk_session (sent s) (page s ++ [w])).

Definition st_stop {A} : App A := fun _ s => (Stopped, s).

(** A value or exception computed without any request. *)
Definition eval {A} (r : result A) : App A :=
  fun _ s =>
    match r with
    | Ok a => (Done a, s)
    | Raise e => (Uncaught e, s)
    end.

(** [try: body  except Exception as e: handler] *)
Definition try_except {A} (body : Net A) (handler : pyexc -> App A) : App A :=
  fun srv s =>
    match body srv (sent s) with
    | (Ok a, h) => (Done a, mk_session h (page s))
    | (Raise e, h) => handler e srv (mk_session h (page s))
    end.

(** The handler of every stage: [st.error(f"<stage>: {e}"); st.stop()]. *)
Definition report {A} (R : rendering) (stage : string) (e : pyexc) : App A :=
  (show (Error (stage ++ ": " ++ exc_str R e)) ;;; st_stop)%app.

Fixpoint for_each {A} (body : A -> App unit) (l : list A) : App unit :=
  match l with
  | [] => aret tt
  | x :: rest => (body x ;;; for_each body rest)%app
  end.

(** [enumerate(l)] from [i]. *)
Fixpoint enumerate_from {A} (i : nat) (l : list A) : list (nat * A) :=
  match l with
  | [] => []
  | x :: rest => (i, x) :: enumerate_from (S i) rest
  end.

(** The names whose values fail the test [if not VALUE]: unset or empty. *)
Definition unset (v : option string) : bool :=
  match v with
  | None => true
  | Some s => String.eqb s EmptyString
  end.

Definition missing_keys (cfg : config) : list string :=
  (if unset (GROQ_API_KEY cfg) then ["GROQ_API_KEY"] else [])
  ++ (if unset (SPOTIFY_CLIENT_ID cfg) then ["SPOTIFY_CLIENT_ID"] else [])
  ++ (if unset (SPOTIFY_CLIENT_SECRET cfg) then ["SPOTIFY_CLIENT_SECRET"] else []).

(** [[c["name"] for c in cards]] *)
Fixpoint names_of (cards : list json) : result (list json) :=
  match cards with
  | [] => Ok []
  | c :: rest =>
      (n <- getitem c "name" ;; ns <- names_of rest ;; Ok (n :: ns))%py
  end.

Definition show_card (R : rendering) (num_cards : Z) (ic : nat * json) : App unit :=
  let (i, card) := ic in
  (* [cols[i]] *)
  ((if Z.of_nat i <? num_cards then aret tt else eval (Raise IndexError)) ;;;
   short <- eval (getitem card "name_short") ;;
   name <- eval (getitem card "name") ;;
   show (InColumn i (Image (TAROT_IMAGE_BASE ++ "/" ++ format R short ++ ".jpg")
                           name 150)) ;;;
   up <- eval (getitem card "meaning_up") ;;
   show (InColumn i (Markdown (JStr ("**Upright:** " ++ format R up)) false)) ;;;
   rev <- eval (getitem card "meaning_rev") ;;
   show (InColumn i (Markdown (JStr ("**Reversed:** " ++ format R rev)) false)))%app.

Definition embed_html (embed_url : string) : string :=
  dq "<iframe src='" ++ embed_url ++ dq "' width='100%' height='80' "
  ++ dq "frameBorder='0' allow='autoplay; clipboard-write; encrypted-media; "
  ++ dq "fullscreen; picture-in-picture' loading='lazy'></iframe>".

Definition show_track (R : rendering) (t : track) : App unit :=
  let embed_url :=
    "https://open.spotify.com/embed/track/" ++ format R (track_id t)
    ++ "?utm_source=generator&theme=0" in
  (show (Markdown (JStr ("**" ++ format R (track_name t) ++ "** — "
                         ++ format R (track_artist t)
                         ++ "  `[" ++ track_genre t ++ "]`")) false) ;;;
   show (Html (embed_html embed_url) 90))%app.

(** The block run when the button is pressed (lines 177 to 252). *)
Definition main_block (R : rendering) (cfg : config) (num_cards : Z) (context : string)
  : App unit :=
  (* Validate API keys *)
  let missing := missing_keys cfg in
  ((match missing with
    | [] => aret tt
    | _ :: _ =>
        show (Error ("Missing environment variables: " ++ join ", " missing
                     ++ ". Add them to your `.env` file.")) ;;;
        st_stop
    end) ;;;
   (* Draw random cards from the Tarot API *)
   show (Spinner "Drawing cards...") ;;;
   drawn_cards <- try_except (draw_tarot_cards num_cards)
                    (report R "Error fetching tarot cards") ;;
   cards <- eval (py_iter drawn_cards) ;;
   card_names <- eval (names_of cards) ;;
   (* Display cards with images, names, and meanings *)
   show (Subheader "Your Cards") ;;;
   (if 0 <? num_cards then show (Columns num_cards)
    else eval (Raise StreamlitAPIException)) ;;;
   for_each (show_card R num_cards) (enumerate_from 0 cards) ;;;
   (* Get tarot reading from Groq *)
   show (Spinner "Consulting the cards...") ;;;
   reading <- try_except
                (names <- lift (all_str card_names) ;;
                 get_tarot_reading cfg names context)%net
                (report R "Error getting tarot reading") ;;
   show (Subheader "📖 Your Reading") ;;;
   show (Markdown reading false) ;;;
   (* Extract genres *)
   show (Spinner "Identifying music genres...") ;;;
   genres <- try_except
               (reading_text <- lift (as_str reading) ;;
                extract_genres cfg reading_text)%net
               (report R "Error extracting genres") ;;
   show (Subheader "🎵 Recommended Genres") ;;;
   genre_list <- eval (str_items genres) ;;
   show (Write (join ", " genre_list)) ;;;
   (* Search Spotify and display embedded players *)
   show (Spinner "Finding tracks on Spotify...") ;;;
   tracks <- try_except
               (token <- get_spotify_token cfg ;;
                search_tracks genre_list (format R token) default_limit)%net
               (report R "Error searching Spotify") ;;
   match tracks with
   | _ :: _ =>
       show (Subheader "🎧 Listen Now") ;;;
       for_each (show_track R) tracks
   | [] =>
       show (Warning "No tracks found on Spotify for the recommended genres.")
   end)%app.

(** What the user does with the controls of the page. *)
Record controls : Type := mk_controls {
  num_cards : Z;          (* the slider, 1 to 5 *)
  context : string;       (* the select box, one of [CONTEXTS] *)
  clicked : bool          (* the button *)
}.

Definition page_style : string :=
  dq "
    <style>
    [data-testid='stImage'] {
        display: flex;
        justify-content: center;
    }
    </style>
    ".

(** The whole script, from [st.set_page_config] on. *)
Definition script (R : rendering) (cfg : config) (c : controls) : App unit :=
  (show (PageConfig "AI Tarot Music" "🔮" "centered") ;;;
   show (Markdown (JStr page_style) true) ;;;
   show (Title "🔮 AI Tarot Music") ;;;
   show (Markdown (JStr "*Draw tarot cards, receive a reflective reading, and listen to music that matches your energy.*") false) ;;;
   show (InSidebar (Header "Settings")) ;;;
   show (InSidebar (Slider "Number of cards to draw" 1 5 2)) ;;;
   show (InSidebar (Selectbox "Life area / context" CONTEXTS)) ;;;
   show (InSidebar (Markdown (JStr "---") false)) ;;;
   show (InSidebar (Caption "Powered by Groq (Llama 3), Tarot API & Spotify")) ;;;
   show (Button "🃏 Draw Cards & Get Reading") ;;;
   if clicked c then main_block R cfg (num_cards c) (context c) else aret tt)%app.

(** A run of the script from a fresh session. *)
Definition run (R : rendering) (cfg : config) (c : controls) (srv : server)
  : outcome unit * session :=
  script R cfg c srv (mk_session [] []).

(** ** Vocabulary of the statements *)

(** The search request for the query [q]. *)
Definition search_request (token q : string) (limit : Z) : request :=
  mk_request GET SPOTIFY_SEARCH_URL [("Authorization", "Bearer " ++ token)]
             (search_params q limit) [] None.

(** One entry per item, in order: what the inner loop adds for a genre. *)
Definition entries_of (genre : string) (items : list json) (group : list track) : Prop :=
  Forall2 (fun t e => track_entry genre t = Ok e) items group.

(** [group] is built from the items of a reply of the service to a search
    for [genre], filtered or not. *)
Definition from_service (srv : server) (token : string) (limit : Z)
           (genre : string) (group : list track) : Prop :=
  exists h q resp v items,
    (q = "genre:" ++ genre \/ q = genre)
    /\ srv h (search_request token q limit) = Some resp
    /\ track_items resp = Ok v
    /\ py_iter v = Ok items
    /\ entries_of genre items group.

(** The service never returns more than [limit] items to a request whose
    [limit] parameter is [limit]. *)
Definition honours_limit (srv : server) (limit : Z) : Prop :=
  forall h rq resp v items,
    srv h rq = Some resp ->
    dict_lookup "limit" (params rq) = Some (JInt limit) ->
    track_items resp = Ok v ->
    py_iter v = Ok items ->
    Z.of_nat (List.length items) <= limit.

(** A track item that lacks one of the fields read, or whose list of artists
    is empty. *)
Definition malformed (t : json) : Prop :=
  exists d,
    t = JObj d
    /\ (dict_lookup "id" d = None
        \/ dict_lookup "name" d = None
        \/ dict_lookup "artists" d = None
        \/ dict_lookup "artists" d = Some (JArr [])
        \/ dict_lookup "external_urls" d = None
        \/ (exists u, dict_lookup "external_urls" d = Some (JObj u)
                      /\ dict_lookup "spotify" u = None)).

(** The items the loop visits for one genre: those of the filtered search
    or, when that value is falsy, those of the search for the bare genre. *)
Definition genre_items (token : string) (limit : Z) (genre : string) : Net (list json) :=
  (resp <- send (search_request token ("genre:" ++ genre) limit) ;;
   tracks <- lift (track_items resp) ;;
   tracks <- (if truthy tracks then ret tracks
              else
                resp <- send (search_request token genre limit) ;;
                lift (track_items resp)) ;;
   lift (py_iter tracks))%net.

(** ** Vocabulary of the decoder's properties *)

(** A visible ASCII character: no white space of any kind and no byte of a
    multi-byte character. *)
Definition printable (c : ascii) : bool := ((33 <=? code c) && (code c <? 127))%nat.

Definition head_printable (t : string) : bool :=
  match t with
  | String c _ => printable c
  | EmptyString => false
  end.

Fixpoint last_printable (t : string) : bool :=
  match t with
  | EmptyString => false
  | String c EmptyString => printable c
  | String _ r => last_printable r
  end.

Fixpoint all_ws (w : string) : bool :=
  match w with
  | EmptyString => true
  | String c r => Json.is_ws c && all_ws r
  end.

Fixpoint all_digits (d : string) : bool :=
  match d with
  | EmptyString => true
  | String c r => Json.is_digit c && all_digits r
  end.

Definition nondigit_head (r : string) : bool :=
  match r with
  | EmptyString => true
  | String c _ => negb (Json.is_digit c)
  end.

(** What may follow a value without changing how it is read: the end of the
    text, or a character that continues no number. *)
Definition delim (r : string) : bool :=
  match r with
  | EmptyString => true
  | String c _ =>
      negb (Json.is_digit c || (c =? ".")%char || (c =? "e")%char || (c =? "E")%char)
  end.

(** [p] reads [t] as [v] whatever follows, among the texts accepted by [ok]. *)
Definition reads {A} (p : string -> option (A * string)) (ok : string -> bool)
           (t : string) (v : A) : Prop :=
  forall r', ok r' = true -> p (t ++ r') = Some (v, r').

Definition anything (_ : string) : bool := true.

(** What [scanstring] does after the four digits of a unicode escape
    denoting [uni], on the text [x] that follows them. *)
Definition after_escape (uni : N) (x : string) : option (string * string) :=
  match x with
  | String b (String u r3) =>
      if Json.is_high_surrogate uni && (b =? "\")%char && (u =? "u")%char then
        match r3 with
        | String g1 (String g2 (String g3 (String g4 r4))) =>
            match Json.hex4 g1 g2 g3 g4 with
            | None => None
            | Some uni2 =>
                if Json.is_low_surrogate uni2 then
                  Json.emit (Json.utf8 (65536 + (uni - 55296) * 1024 + (uni2 - 56320))%N)
                            (Json.scanstring r4)
                else Json.emit (Json.utf8 uni) (Json.scanstring x)
            end
        | _ => None
        end
      else Json.emit (Json.utf8 uni) (Json.scanstring x)
  | _ => Json.emit (Json.utf8 uni) (Json.scanstring x)
  end.

Definition six (a b c d e f : ascii) (x : string) : string :=
  String a (String b (String c (String d (String e (String f x))))).

(** The three scanners read the text they consume the same way whatever
    follows it, with any fuel not less than its length. *)
Definition value_local (f : nat) : Prop :=
  forall x v r,
    Json.scan_once f x = Some (v, r) ->
    exists t,
      x = t ++ r /\ head_printable t = true /\ last_printable t = true
      /\ forall g r', delim r' = true -> (String.length t <= g)%nat ->
                      Json.scan_once g (t ++ r') = Some (v, r').

Definition elements_local (f : nat) : Prop :=
  forall acc x v r,
    Json.elements f acc x = Some (v, r) ->
    exists t,
      x = t ++ r /\ head_printable t = true /\ last_printable t = true
      /\ forall g r', (String.length t <= g)%nat ->
                      Json.elements g acc (t ++ r') = Some (v, r').

Definition members_local (f : nat) : Prop :=
  forall acc x v r,
    Json.members f acc x = Some (v, r) ->
    exists t,
      x = t ++ r /\ last_printable t = true
      /\ forall g r', (String.length t <= g)%nat ->
                      Json.members g acc (t ++ r') = Some (v, r').

(** ** Vocabulary of the statements on [extract_genres] *)

(** The request [extract_genres] sends for [reading_text]. *)
Definition extraction_request (cfg : config) (reading_text : string) : request :=
  mk_request POST GROQ_API_URL (groq_headers cfg) [] []
             (Some (chat_payload (extraction_instruction ++ reading_text) 100
                                 (JFloat false 0 (-1)))).

(** The chat service answers the extraction call, made after the requests
    [h], with a response that passes the status check and whose message
    content is the text [raw]. *)
Definition replies_content (srv : server) (h : list request) (cfg : config)
           (reading_text raw : string) : Prop :=
  exists resp body,
    srv h (extraction_request cfg reading_text) = Some resp
    /\ raise_for_status resp = Ok tt
    /\ resp_json resp = Ok body
    /\ message_content body = Ok (JStr raw).

(** The second half of C4 as it is stated: a content that is not valid JSON
    always makes [extract_genres] raise the parse failure. *)
Definition invalid_json_always_raises : Prop :=
  forall cfg reading_text srv h raw,
    replies_content srv h cfg reading_text raw ->
    Json.loads raw = None ->
    exists h', extract_genres cfg reading_text srv h = (Raise JSONDecodeError, h').


(** C6 as it is stated: whatever the service returns, no genre of the input
    has more than [limit] entries in the result. *)
Definition at_most_limit_per_genre (srv : server) (genres : list string)
           (token : string) (limit : Z) (h : list request) : Prop :=
  forall res h',
    search_tracks genres token limit srv h = (Ok res, h') ->
    forall g, In g genres ->
      Z.of_nat (List.length (filter (fun e => String.eqb (track_genre e) g) res)) <= limit.

(** ** Scenarios

    Services with fixed replies, used to run the program on concrete inputs. *)

Module Scenario.

Definition plain : rendering :=
  mk_rendering
    (fun e =>
       match e with
       | ConnectionError => "ConnectionError"
       | HTTPError _ => "HTTPError"
       | JSONDecodeError => "JSONDecodeError"
       | KeyError _ => "KeyError"
       | IndexError => "list index out of range"
       | TypeError => "TypeError"
       | AttributeError => "AttributeError"
       | StreamlitAPIException => "StreamlitAPIException"
       end)
    (fun _ => "<value>").

Definition keys : config := mk_config (Some "gsk_1") (Some "client") (Some "secret").

Definition pressed : controls := mk_controls 2 "Career" true.

Definition cards_reply : response :=
  mk_response 200
    (dq "{'nhits': 2, 'cards': [
          {'name': 'The Fool', 'name_short': 'ar00', 'meaning_up': 'Folly', 'meaning_rev': 'Negligence'},
          {'name': 'The Sun', 'name_short': 'ar19', 'meaning_up': 'Contentment', 'meaning_rev': 'The same'}]}").

Definition reading_reply : response :=
  mk_response 200
    (dq "{'choices': [{'index': 0, 'message': {'role': 'assistant', 'content': 'A calm reading.'}}]}").

(** The reply of the chat service whose message is [content], given as the
    inside of a JSON string literal. *)
Definition chat_reply (content : string) : response :=
  mk_response 200
    (dq "{'choices': [{'index': 0, 'message': {'role': 'assistant', 'content': '"
     ++ content ++ dq "'}}]}").

Definition token_reply : response :=
  mk_response 200 (dq "{'access_token': 'tok123', 'token_type': 'Bearer', 'expires_in': 3600}").

Definition query_of (rq : request) : string :=
  match dict_lookup "q" (params rq) with
  | Some (JStr q) => q
  | _ => EmptyString
  end.

Definition is_reading_request (rq : request) : bool :=
  match payload rq with
  | Some (JObj d) =>
      match dict_lookup "max_tokens" d with
      | Some (JInt n) => n =? 512
      | _ => false
      end
  | _ => false
  end.

(** The three services, with a given reply to the extraction call and a given
    behaviour of the track search. *)
Definition service (extraction : response) (search : request -> option response)
  : server :=
  fun _ rq =>
    if String.eqb (url rq) (TAROT_API_URL ++ "/cards/random") then Some cards_reply
    else if String.eqb (url rq) GROQ_API_URL then
      Some (if is_reading_request rq then reading_reply else extraction)
    else if String.eqb (url rq) SPOTIFY_TOKEN_URL then Some token_reply
    else search rq.

Definition lofi_jazz : response := chat_reply (dq "[\'lofi\',\'jazz\']").

(** Extraction replies: the array of the specification, a list after a
    vertical tab (U+000B), an object after a form feed (U+000C). *)
Definition abc : response := chat_reply (dq "[\'a\',\'b\',\'c\']").
Definition tab_then_list : response := chat_reply (dq "\u000b[\'a\']").

Definition no_items : response := mk_response 200 (dq "{'tracks': {'items': []}}").

Definition one_item (i n a : string) : response :=
  mk_response 200
    (dq "{'tracks': {'items': [{'id': '" ++ i ++ dq "', 'name': '" ++ n
     ++ dq "', 'artists': [{'name': '" ++ a
     ++ dq "'}], 'external_urls': {'spotify': 'https://open.spotify.com/track/" ++ i
     ++ dq "'}}]}}").

(** The filtered search for lofi finds nothing, the plain one a track; the
    filtered search for any other genre finds a track. *)
Definition catalogue (rq : request) : option response :=
  if String.eqb (query_of rq) "genre:lofi" then Some no_items
  else if String.eqb (query_of rq) "lofi" then Some (one_item "L1" "Low Tide" "Ana")
  else Some (one_item "J1" "Blue Hour" "Ben").

(** The search answers 401 with the error body of the music service. *)
Definition unauthorized (_ : request) : option response :=
  Some (mk_response 401 (dq "{'error': {'status': 401, 'message': 'The access token expired'}}")).

(** The search returns a track with no artist. *)
Definition no_artist (_ : request) : option response :=
  Some (mk_response 200
          (dq "{'tracks': {'items': [{'id': 'X1', 'name': 'Untitled', 'artists': [], 'external_urls': {'spotify': 'https://open.spotify.com/track/X1'}}]}}")).

(** The search returns four tracks, whatever [limit] asks. *)
Definition four_items (_ : request) : option response :=
  Some (mk_response 200
          (dq "{'tracks': {'items': [
                {'id': 'A', 'name': 'a', 'artists': [{'name': 'x'}], 'external_urls': {'spotify': 'ua'}},
                {'id': 'B', 'name': 'b', 'artists': [{'name': 'x'}], 'external_urls': {'spotify': 'ub'}},
                {'id': 'C', 'name': 'c', 'artists': [{'name': 'x'}], 'external_urls': {'spotify': 'uc'}},
                {'id': 'D', 'name': 'd', 'artists': [{'name': 'x'}], 'external_urls': {'spotify': 'ud'}}]}}")).

(** [base] with the reply to every request for the address [u] replaced. *)
Definition override (u : string) (resp : response) (base : server) : server :=
  fun h rq => if String.eqb (url rq) u then Some resp else base h rq.

(** A draw whose only card has no name. *)
Definition nameless_cards : response :=
  mk_response 200 (dq "{'nhits': 1, 'cards': [{'name_short': 'ar00'}]}").

(** The search finds nothing, filtered or not. *)
Definition silent (_ : request) : option response := Some no_items.

(** The error body of [unauthorized], sent with status 200. *)
Definition error_body_ok (_ : request) : option response :=
  Some (mk_response 200 (dq "{'error': {'status': 401, 'message': 'The access token expired'}}")).

(** The chat service answers with no choice at all. *)
Definition no_choices : response := mk_response 200 (dq "{'id': 'cmpl-1', 'choices': []}").

(** The chat service answers with a message that has no text. *)
Definition null_content : response :=
  mk_response 200 (dq "{'choices': [{'index': 0, 'message': {'role': 'assistant', 'content': null}}]}").

(** The extraction returns a number. *)
Definition a_number : response := chat_reply "7".

End Scenario.

(** ** Vocabulary of the statements on the calls and on the script *)

Definition draw_request (n : Z) : request :=
  mk_request GET (TAROT_API_URL ++ "/cards/random") [] [("n", JInt n)] [] None.

Definition reading_request (cfg : config) (cards : list string) (context : string)
  : request :=
  mk_request POST GROQ_API_URL (groq_headers cfg) [] []
             (Some (chat_payload (build_prompt cards context) 512 (JFloat false 7 (-1)))).

Definition token_request (cfg : config) : request :=
  mk_request POST SPOTIFY_TOKEN_URL [] []
             [("grant_type", Some "client_credentials");
              ("client_id", SPOTIFY_CLIENT_ID cfg);
              ("client_secret", SPOTIFY_CLIENT_SECRET cfg)] None.

(** What a call that checks its reply makes of it: no reply, an error
    status, a body that is not JSON, and then the fields [k] reads. *)
Definition checked (reply : option response) (k : json -> result json) : result json :=
  match reply with
  | None => Raise ConnectionError
  | Some resp =>
      (_ <- raise_for_status resp ;; body <- resp_json resp ;; k body)%py
  end.

(** A search request of [search_tracks] for one of [genres]. *)
Definition search_for (token : string) (limit : Z) (genres : list string)
           (rq : request) : Prop :=
  exists g, In g genres
            /\ (rq = search_request token ("genre:" ++ g) limit
                \/ rq = search_request token g limit).

(** Two services whose replies differ at most in their status codes. *)
Definition same_bodies (srv1 srv2 : server) : Prop :=
  forall h rq, option_map text (srv1 h rq) = option_map text (srv2 h rq).

(** [Q] holds of the outcome and the session in which [m] ends. *)
Definition after {A} (m : App A) (srv : server) (s : session)
           (Q : outcome A -> session -> Prop) : Prop :=
  Q (fst (m srv s)) (snd (m srv s)).

Definition is_error (w : widget) : bool :=
  match w with
  | Error _ => true
  | _ => false
  end.

Definition no_error (ws : list widget) : Prop := Forall (fun w => is_error w = false) ws.

(** A part of the script that sends nothing, reports no error and does not
    stop the run. *)
Definition quiet {A} (m : App A) : Prop :=
  forall srv s,
    exists ws,
      snd (m srv s) = mk_session (sent s) (page s ++ ws)
      /\ no_error ws
      /\ fst (m srv s) <> Stopped.

(** The text before the exception in the error of each stage, in the order
    of the stages. *)
Definition stage_names : list string :=
  ["Error fetching tarot cards"; "Error getting tarot reading";
   "Error extracting genres"; "Error searching Spotify"].

(** The calls of the four stages that come before the searches. *)
Definition stage_calls (cfg : config) (c : controls) (names : list string)
           (reading_text : string) : list request :=
  [draw_request (num_cards c); reading_request cfg names (context c);
   extraction_request cfg reading_text; token_request cfg].

(** The two widgets of a track: its line of text and its player. *)
Definition track_widgets (R : rendering) (t : track) : list widget :=
  page (snd (show_track R t (fun _ _ => None) (mk_session [] []))).

(** The end of the page of a run that completes. *)
Definition final_widgets (R : rendering) (tracks : list track) : list widget :=
  match tracks with
  | [] => [Warning "No tracks found on Spotify for the recommended genres."]
  | _ :: _ => Subheader "🎧 Listen Now" :: flat_map (track_widgets R) tracks
  end.

(** A card with the four fields the display reads. *)
Definition complete_card (card : json) : Prop :=
  exists short name up rev,
    getitem card "name_short" = Ok short
    /\ getitem card "name" = Ok name
    /\ getitem card "meaning_up" = Ok up
    /\ getitem card "meaning_rev" = Ok rev.

(** What a run can leave behind: the first [k] stage calls, in order, then
    searches only if all four were made; no call unless the button was
    pressed and no key is missing; and an error widget exactly when the run
    was stopped, as the last widget.  The error is that of the missing keys
    when no call was made, and otherwise names the stage of the last call
    made or of the one after it.  A pressed run that completes has made the
    four calls and ends with the widgets of the tracks [search_tracks]
    returned. *)
Definition run_shape (R : rendering) (cfg : config) (c : controls) (srv : server)
           (o : outcome unit) (s : session) : Prop :=
  exists k names reading_text searches,
    sent s = (firstn k (stage_calls cfg c names reading_text) ++ searches)%list
    /\ (k <= 4)%nat
    /\ (searches <> [] -> k = 4%nat)
    /\ Forall (fun rq => url rq = SPOTIFY_SEARCH_URL) searches
    /\ (k <> 0%nat -> clicked c = true /\ missing_keys cfg = [])
    /\ match o with
       | Stopped =>
           exists shown msg,
             page s = (shown ++ [Error msg])%list
             /\ no_error shown
             /\ (k = 0%nat
                 /\ msg = "Missing environment variables: "
                          ++ join ", " (missing_keys cfg)
                          ++ ". Add them to your `.env` file."
                 \/ exists i stage e,
                     nth_error stage_names i = Some stage
                     /\ msg = stage ++ ": " ++ exc_str R e
                     /\ (i <= k <= i + 1)%nat /\ (1 <= k)%nat)
       | Done _ =>
           no_error (page s)
           /\ (clicked c = true ->
               k = 4%nat
               /\ exists shown tracks genres token h,
                   page s = (shown ++ final_widgets R tracks)%list
                   /\ search_tracks genres token default_limit srv h
                      = (Ok tracks, sent s))
       | Uncaught _ => no_error (page s)
       end.

(** * Properties *)

(** ** The decoder reads a value the same way whatever follows it *)

(** ** Strings *)

Lemma sapp_nil_r s : s ++ EmptyString = s.
Proof. induction s; cbn; congruence. Qed.

Lemma sapp_assoc a b c : (a ++ b) ++ c = a ++ b ++ c.
Proof. induction a; cbn; congruence. Qed.

Lemma slength_app a b : String.length (a ++ b) = (String.length a + String.length b)%nat.
Proof. induction a; cbn; congruence. Qed.

Lemma last_printable_app a b :
  b <> EmptyString -> last_printable (a ++ b) = last_printable b.
Proof.
  intros Hb. induction a as [|c a IH]; [reflexivity|].
  cbn [append last_printable]. rewrite IH.
  destruct (a ++ b) eqn:E; [|reflexivity].
  destruct a; cbn in E; [congruence | discriminate].
Qed.

Lemma last_printable_nonempty t : last_printable t = true -> t <> EmptyString.
Proof. now destruct t. Qed.

Lemma head_printable_app a b : head_printable a = true -> head_printable (a ++ b) = true.
Proof. now destruct a. Qed.

Lemma digit_printable c : Json.is_digit c = true -> printable c = true.
Proof.
  unfold Json.is_digit, printable. rewrite !andb_true_iff, !Nat.leb_le, Nat.ltb_lt. lia.
Qed.

Lemma ws_not_printable c : Json.is_ws c = true -> printable c = false.
Proof.
  unfold Json.is_ws. rewrite !orb_true_iff, !Ascii.eqb_eq.
  intros [[[->| ->]| ->]| ->]; reflexivity.
Qed.

Lemma printable_not_ws c : printable c = true -> Json.is_ws c = false.
Proof.
  intros H. destruct (Json.is_ws c) eqn:E; [|reflexivity].
  apply ws_not_printable in E. congruence.
Qed.

Lemma all_digits_last d :
  all_digits d = true -> d <> EmptyString -> last_printable d = true.
Proof.
  induction d as [|c d IH]; [easy|]. cbn [all_digits]. rewrite andb_true_iff.
  intros [Hc Hd] _. cbn [last_printable]. destruct d; [now apply digit_printable|].
  apply IH; [assumption | discriminate].
Qed.

(** ** White space *)

Lemma skip_ws_split s : exists w, s = w ++ Json.skip_ws s /\ all_ws w = true.
Proof.
  induction s as [|c s (w & E & Hw)]; [now exists EmptyString|].
  cbn [Json.skip_ws]. destruct (Json.is_ws c) eqn:Hc.
  - exists (String c w). cbn. now rewrite Hc, Hw, <- E.
  - now exists EmptyString.
Qed.

Lemma skip_ws_head s c r : Json.skip_ws s = String c r -> Json.is_ws c = false.
Proof.
  induction s as [|a s IH]; [discriminate|]. cbn.
  destruct (Json.is_ws a) eqn:Ha; [exact IH|]. now intros [= <- _].
Qed.

Lemma skip_ws_app w s : all_ws w = true -> Json.skip_ws (w ++ s) = Json.skip_ws s.
Proof.
  induction w as [|c w IH]; [reflexivity|]. cbn. rewrite andb_true_iff.
  intros [-> Hw]. auto.
Qed.

Lemma skip_ws_stop c r : Json.is_ws c = false -> Json.skip_ws (String c r) = String c r.
Proof. intros H. cbn. now rewrite H. Qed.

Lemma skip_ws_all s : Json.skip_ws s = EmptyString -> all_ws s = true.
Proof.
  induction s as [|c s IH]; [reflexivity|]. cbn.
  destruct (Json.is_ws c); [exact IH | discriminate].
Qed.

Lemma all_ws_skip s : all_ws s = true -> Json.skip_ws s = EmptyString.
Proof.
  induction s as [|c s IH]; [reflexivity|]. cbn. rewrite andb_true_iff.
  intros [-> Hs]. auto.
Qed.

(** ** What may follow a value *)

Lemma delim_nondigit r : delim r = true -> nondigit_head r = true.
Proof.
  destruct r as [|c r]; [reflexivity|]. cbn.
  destruct (Json.is_digit c); [discriminate | reflexivity].
Qed.

Lemma delim_ws c r : Json.is_ws c = true -> delim (String c r) = true.
Proof.
  unfold Json.is_ws. rewrite !orb_true_iff, !Ascii.eqb_eq.
  intros [[[->| ->]| ->]| ->]; reflexivity.
Qed.

Lemma delim_ws_app w s : all_ws w = true -> delim s = true -> delim (w ++ s) = true.
Proof.
  destruct w as [|c w]; [trivial|]. cbn [all_ws append]. rewrite andb_true_iff.
  intros [Hc _] _. now apply delim_ws.
Qed.

(** ** Numbers *)

Lemma span_digits_spec x d rest :
  Json.span_digits x = (d, rest) ->
  x = d ++ rest /\ all_digits d = true /\ nondigit_head rest = true.
Proof.
  revert d rest. induction x as [|c x IH]; intros d rest; cbn.
  - now intros [= <- <-].
  - destruct (Json.is_digit c) eqn:Hc.
    + destruct (Json.span_digits x) as [d0 rest0]. intros [= <- <-].
      destruct (IH _ _ eq_refl) as (-> & Hd & Hr). cbn. now rewrite Hc, Hd.
    + intros [= <- <-]. cbn. now rewrite Hc.
Qed.

Lemma span_digits_app d r' :
  all_digits d = true -> nondigit_head r' = true -> Json.span_digits (d ++ r') = (d, r').
Proof.
  intros Hd Hr. induction d as [|c d IH]; cbn.
  - destruct r' as [|c r']; [reflexivity|]. cbn in *.
    now destruct (Json.is_digit c).
  - cbn in Hd. apply andb_true_iff in Hd as [-> Hd]. now rewrite (IH Hd).
Qed.

Lemma digit_head_not c x : Json.is_digit c = true -> (c =? x)%char = true ->
  Json.is_digit x = true.
Proof. intros H E. apply Ascii.eqb_eq in E. now subst. Qed.

Lemma scan_int_local x ip r1 :
  Json.scan_int x = Some (ip, r1) ->
  x = ip ++ r1 /\ all_digits ip = true /\ ip <> EmptyString
  /\ forall r', nondigit_head r' = true -> Json.scan_int (ip ++ r') = Some (ip, r').
Proof.
  destruct x as [|c x]; [discriminate|]. cbn [Json.scan_int].
  destruct (Ascii.eqb_spec c "0") as [->|Hc].
  - intros [= <- <-]. repeat split; try easy.
  - destruct (Json.is_digit c) eqn:Hd; [|discriminate].
    intros H0.
    assert (H : Json.span_digits (String c x) = (ip, r1)) by (now injection H0).
    clear H0. destruct (span_digits_spec _ _ _ H) as (E & Ha & _).
    assert (Hne : ip <> EmptyString).
    { cbn in H. rewrite Hd in H. destruct (Json.span_digits x). now injection H as <- _. }
    repeat split; trivial.
    intros r' Hr. destruct ip as [|c' ip]; [easy|].
    cbn in E. injection E as <- E.
    cbn [append Json.scan_int].
    destruct (Ascii.eqb_spec c "0") as [?|_]; [contradiction|].
    rewrite Hd. change (String c (ip ++ r')) with (String c ip ++ r').
    now rewrite (span_digits_app _ _ Ha Hr).
Qed.

Lemma scan_frac_local x d r2 :
  Json.scan_frac x = Some (d, r2) ->
  x = String "." (d ++ r2) /\ all_digits d = true /\ d <> EmptyString
  /\ forall r', nondigit_head r' = true ->
                Json.scan_frac (String "." (d ++ r')) = Some (d, r').
Proof.
  destruct x as [|c x]; [discriminate|]. cbn [Json.scan_frac].
  destruct (Ascii.eqb_spec c ".") as [->|Hc]; [|discriminate].
  destruct (Json.span_digits x) as [d0 rest] eqn:H.
  destruct d0 as [|c0 d0]; [discriminate|]. intros [= <- <-].
  destruct (span_digits_spec _ _ _ H) as (-> & Ha & _).
  repeat split; try easy.
  intros r' Hr. cbn [Json.scan_frac Ascii.eqb Bool.eqb].
  now rewrite (span_digits_app _ _ Ha Hr).
Qed.

Lemma scan_frac_none r : delim r = true -> Json.scan_frac r = None.
Proof.
  destruct r as [|c r]; [reflexivity|]. cbn.
  destruct (c =? ".")%char; [|reflexivity].
  rewrite orb_true_r. discriminate.
Qed.

Lemma scan_exp_none r : delim r = true -> Json.scan_exp r = None.
Proof.
  destruct r as [|c r]; [reflexivity|]. cbn.
  destruct (c =? "e")%char; [rewrite !orb_true_r; discriminate|].
  destruct (c =? "E")%char; [rewrite !orb_true_r; discriminate|]. reflexivity.
Qed.

Lemma scan_exp_local x e r3 :
  Json.scan_exp x = Some (e, r3) ->
  exists c t,
    x = String c (t ++ r3) /\ (c = "e" \/ c = "E")%char /\ last_printable t = true
    /\ forall r', nondigit_head r' = true ->
                  Json.scan_exp (String c (t ++ r')) = Some (e, r').
Proof.
  destruct x as [|c x]; [discriminate|]. cbn [Json.scan_exp].
  destruct ((c =? "e") || (c =? "E"))%char eqn:Hc; [|discriminate].
  assert (Hc' : (c = "e" \/ c = "E")%char).
  { apply orb_true_iff in Hc as [H|H]; apply Ascii.eqb_eq in H; auto. }
  assert (Hgen : forall (neg : bool) y d rest,
             Json.span_digits y = (d, rest) -> d <> EmptyString ->
             y = d ++ rest /\ all_digits d = true /\ last_printable d = true).
  { intros neg y d rest H Hne. destruct (span_digits_spec _ _ _ H) as (E & Ha & _).
    repeat split; trivial. now apply all_digits_last. }
  destruct x as [|sg x'].
  - cbn. discriminate.
  - destruct (Ascii.eqb_spec sg "-") as [->|Hm];
      [|destruct (Ascii.eqb_spec sg "+") as [->|Hp]].
    + destruct (Json.span_digits x') as [d rest] eqn:H.
      destruct d as [|c0 d]; [discriminate|]. intros [= <- <-].
      destruct (Hgen true _ _ _ H) as (-> & Ha & Hl); [easy|].
      exists c, (String "-" (String c0 d)).
      split; [reflexivity|]. split; [exact Hc'|]. split; [exact Hl|].
      intros r' Hr. cbn [Json.scan_exp append]. rewrite Hc.
      cbn [Ascii.eqb Bool.eqb].
      change (String c0 (d ++ r')) with (String c0 d ++ r').
      now rewrite (span_digits_app _ _ Ha Hr).
    + destruct (Json.span_digits x') as [d rest] eqn:H.
      destruct d as [|c0 d]; [discriminate|]. intros [= <- <-].
      destruct (Hgen false _ _ _ H) as (-> & Ha & Hl); [easy|].
      exists c, (String "+" (String c0 d)).
      split; [reflexivity|]. split; [exact Hc'|]. split; [exact Hl|].
      intros r' Hr. cbn [Json.scan_exp append]. rewrite Hc.
      cbn [Ascii.eqb Bool.eqb].
      change (String c0 (d ++ r')) with (String c0 d ++ r').
      now rewrite (span_digits_app _ _ Ha Hr).
    + destruct (Json.span_digits (String sg x')) as [d rest] eqn:H.
      destruct d as [|c0 d]; [discriminate|]. intros [= <- <-].
      destruct (Hgen false _ _ _ H) as (E & Ha & Hl); [easy|].
      exists c, (String c0 d). rewrite <- E.
      split; [reflexivity|]. split; [exact Hc'|]. split; [exact Hl|].
      intros r' Hr. cbn [Json.scan_exp append]. rewrite Hc.
      cbn in E. injection E as <- E.
      destruct (Ascii.eqb_spec sg "-") as [?|_]; [contradiction|].
      destruct (Ascii.eqb_spec sg "+") as [?|_]; [contradiction|].
      change (String sg (d ++ r')) with (String sg d ++ r').
      now rewrite (span_digits_app _ _ Ha Hr).
Qed.

Lemma digit_head d :
  all_digits d = true -> d <> EmptyString ->
  exists c d', d = String c d' /\ Json.is_digit c = true.
Proof.
  destruct d as [|c d]; [easy|]. cbn. rewrite andb_true_iff. intros [Hc _] _. eauto.
Qed.

Lemma last_printable_cons c t :
  t <> EmptyString -> last_printable (String c t) = last_printable t.
Proof. now destruct t. Qed.

Lemma scan_unsigned_local neg x v r :
  Json.scan_unsigned neg x = Some (v, r) ->
  exists t,
    x = t ++ r
    /\ (exists c t', t = String c t' /\ Json.is_digit c = true)
    /\ last_printable t = true
    /\ reads (Json.scan_unsigned neg) delim t v.
Proof.
  unfold Json.scan_unsigned, reads.
  destruct (Json.scan_int x) as [[ip r1]|] eqn:Hi; [|discriminate].
  destruct (scan_int_local _ _ _ Hi) as (-> & Hip & Hne & Ki).
  destruct (digit_head _ Hip Hne) as (c0 & ip' & -> & Hc0).
  assert (Lip : last_printable (String c0 ip') = true) by now apply all_digits_last.
  destruct (Json.scan_frac r1) as [[d r2]|] eqn:Hf.
  - destruct (scan_frac_local _ _ _ Hf) as (-> & Hd & Hdne & Kf).
    assert (Ld : last_printable d = true) by now apply all_digits_last.
    destruct (Json.scan_exp r2) as [[e r3]|] eqn:He.
    + destruct (scan_exp_local _ _ _ He) as (ce & te & -> & Hce & Lt & Ke).
      intros [= <- <-].
      exists (String c0 ip' ++ String "." (d ++ String ce te)).
      split; [now rewrite !sapp_assoc; cbn; rewrite !sapp_assoc|].
      split; [cbn; eauto|].
      split.
      { rewrite last_printable_app by easy.
        change (String "." (d ++ String ce te)) with
          ((String "." d) ++ String ce te).
        rewrite last_printable_app by easy.
        now rewrite last_printable_cons by now apply last_printable_nonempty. }
      intros r' Hr.
      rewrite sapp_assoc.
      change (String "." (d ++ String ce te) ++ r')
        with (String "." ((d ++ String ce te) ++ r')).
      rewrite Ki by reflexivity.
      rewrite sapp_assoc.
      change (String ce te ++ r') with (String ce (te ++ r')).
      rewrite Kf by (destruct Hce as [-> | ->]; reflexivity).
      now rewrite Ke by now apply delim_nondigit.
    + intros [= <- <-].
      exists (String c0 ip' ++ String "." d).
      split; [now rewrite !sapp_assoc|].
      split; [cbn; eauto|].
      split.
      { rewrite last_printable_app by easy. now rewrite last_printable_cons. }
      intros r' Hr.
      rewrite sapp_assoc. change (String "." d ++ r') with (String "." (d ++ r')).
      rewrite Ki by reflexivity.
      rewrite Kf by now apply delim_nondigit.
      now rewrite scan_exp_none.
  - destruct (Json.scan_exp r1) as [[e r3]|] eqn:He.
    + destruct (scan_exp_local _ _ _ He) as (ce & te & -> & Hce & Lt & Ke).
      intros [= <- <-].
      exists (String c0 ip' ++ String ce te).
      split; [now rewrite !sapp_assoc|].
      split; [cbn; eauto|].
      split.
      { rewrite last_printable_app by easy.
        now rewrite last_printable_cons by now apply last_printable_nonempty. }
      intros r' Hr.
      rewrite sapp_assoc. change (String ce te ++ r') with (String ce (te ++ r')).
      rewrite Ki by (destruct Hce as [-> | ->]; reflexivity).
      assert (Json.scan_frac (String ce (te ++ r')) = None) as ->
          by (destruct Hce as [-> | ->]; reflexivity).
      now rewrite Ke by now apply delim_nondigit.
    + intros [= <- <-].
      exists (String c0 ip').
      split; [reflexivity|]. split; [eauto|]. split; [assumption|].
      intros r' Hr.
      rewrite Ki by now apply delim_nondigit.
      now rewrite scan_frac_none, scan_exp_none.
Qed.

Lemma match_number_local x v r :
  Json.match_number x = Some (v, r) ->
  exists t,
    x = t ++ r /\ head_printable t = true /\ last_printable t = true
    /\ reads Json.match_number delim t v.
Proof.
  destruct x as [|c x]; [discriminate|]. cbn [Json.match_number].
  destruct (Ascii.eqb_spec c "-") as [->|Hc]; intros H;
    apply scan_unsigned_local in H as (t & E & (c0 & t' & -> & Hc0) & Hl & K).
  - exists (String "-" (String c0 t')). subst x.
    split; [reflexivity|]. split; [reflexivity|]. split; [exact Hl|].
    intros r' Hr. cbn [append Json.match_number Ascii.eqb Bool.eqb]. now apply K.
  - exists (String c0 t'). cbn in E. injection E as <- E.
    split; [now rewrite E|]. split; [now apply digit_printable|]. split; [exact Hl|].
    intros r' Hr. cbn [append Json.match_number].
    destruct (Ascii.eqb_spec c "-") as [?|_]; [contradiction|]. now apply K.
Qed.

(** ** Keywords and scalars *)

Lemma strip_prefix_spec p s r : Json.strip_prefix p s = Some r -> s = p ++ r.
Proof.
  revert s. induction p as [|a p IH]; intros s; cbn.
  - now intros [= ->].
  - destruct s as [|b s]; [discriminate|].
    destruct (Ascii.eqb_spec a b) as [->|]; [|discriminate].
    intros H. now rewrite (IH _ H).
Qed.

Lemma strip_prefix_app p r : Json.strip_prefix p (p ++ r) = Some r.
Proof.
  induction p as [|a p IH]; cbn; [reflexivity|]. now rewrite Ascii.eqb_refl.
Qed.

Lemma keyword_local w v0 x v r :
  Json.keyword w v0 x = Some (v, r) ->
  x = w ++ r /\ v = v0 /\ forall r', Json.keyword w v0 (w ++ r') = Some (v0, r').
Proof.
  unfold Json.keyword. destruct (Json.strip_prefix w x) as [r0|] eqn:E; [|discriminate].
  intros [= <- <-]. apply strip_prefix_spec in E.
  repeat split; trivial. intros r'. now rewrite strip_prefix_app.
Qed.

Lemma keyword_other_head a w v c s :
  (a =? c)%char = false -> Json.keyword (String a w) v (String c s) = None.
Proof. intros H. unfold Json.keyword. cbn. now rewrite H. Qed.

Lemma match_number_head x v r :
  Json.match_number x = Some (v, r) ->
  exists c x', x = String c x' /\ (c = "-"%char \/ Json.is_digit c = true).
Proof.
  destruct x as [|c x]; [discriminate|]. cbn [Json.match_number].
  destruct (Ascii.eqb_spec c "-") as [->|Hc]; [eauto|].
  intros H. apply scan_unsigned_local in H as (t & E & (c0 & t' & -> & Hc0) & _).
  cbn in E. injection E as <- _. eauto.
Qed.

Lemma scan_atom_local x v r :
  Json.scan_atom x = Some (v, r) ->
  exists t,
    x = t ++ r /\ head_printable t = true /\ last_printable t = true
    /\ reads Json.scan_atom delim t v.
Proof.
  unfold Json.scan_atom, reads.
  destruct (Json.keyword "null" JNull x) as [[v1 r1]|] eqn:K1.
  { intros [= <- <-]. apply keyword_local in K1 as (-> & -> & _).
    exists "null". repeat split. }
  destruct (Json.keyword "true" (JBool true) x) as [[v2 r2]|] eqn:K2.
  { intros [= <- <-]. apply keyword_local in K2 as (-> & -> & _).
    exists "true". repeat split. }
  destruct (Json.keyword "false" (JBool false) x) as [[v3 r3]|] eqn:K3.
  { intros [= <- <-]. apply keyword_local in K3 as (-> & -> & _).
    exists "false". repeat split. }
  destruct (Json.match_number x) as [[v4 r4]|] eqn:K4.
  { intros [= <- <-].
    destruct (match_number_head _ _ _ K4) as (c & x' & -> & Hc).
    apply match_number_local in K4 as (t & E & Hh & Hl & K).
    exists t. repeat split; trivial.
    intros r' Hr. destruct t as [|c' t]; [discriminate|].
    cbn in E. injection E as <- E. rewrite (K r' Hr).
    assert (N : forall a w u, (a = "n" \/ a = "t" \/ a = "f")%char ->
                Json.keyword (String a w) u (String c t ++ r') = None).
    { intros a w u Ha. apply keyword_other_head.
      destruct (Ascii.eqb_spec a c) as [<-|]; [|reflexivity].
      destruct Ha as [->|[->| ->]]; destruct Hc as [Hc|Hc]; discriminate Hc. }
    rewrite !N by auto. reflexivity. }
  cbn [Json.orelse].
  destruct (Json.keyword "NaN" JNaN x) as [[v5 r5]|] eqn:K5.
  { intros [= <- <-]. apply keyword_local in K5 as (-> & -> & _).
    exists "NaN". repeat split. }
  destruct (Json.keyword "Infinity" (JInf false) x) as [[v6 r6]|] eqn:K6.
  { intros [= <- <-]. apply keyword_local in K6 as (-> & -> & _).
    exists "Infinity". repeat split. }
  intros K7. apply keyword_local in K7 as (-> & -> & _).
  exists "-Infinity". repeat split.
Qed.

(** ** Strings of the JSON text *)


Lemma scanstring_unicode h1 h2 h3 h4 x :
  Json.scanstring
    (String "\" (String "u" (String h1 (String h2 (String h3 (String h4 x))))))
  = match Json.hex4 h1 h2 h3 h4 with
    | Some uni => after_escape uni x
    | None => None
    end.
Proof. reflexivity. Qed.

Lemma scanstring_escape e x :
  (e =? "u")%char = false ->
  Json.scanstring (String "\" (String e x))
  = match Json.unescape e with
    | Some ch => Json.emit (String ch EmptyString) (Json.scanstring x)
    | None => None
    end.
Proof. intros H. cbn [Json.scanstring Ascii.eqb Bool.eqb dquote]. now rewrite H. Qed.

Lemma scanstring_plain c x :
  (c =? dquote)%char = false -> (c =? "\")%char = false -> (code c <? 32)%nat = false ->
  Json.scanstring (String c x) = Json.emit (String c EmptyString) (Json.scanstring x).
Proof. intros H1 H2 H3. cbn [Json.scanstring]. now rewrite H1, H2, H3. Qed.

Lemma emit_some chunk k b r :
  Json.emit chunk k = Some (b, r) -> exists b', k = Some (b', r) /\ b = chunk ++ b'.
Proof.
  destruct k as [[b' r']|]; [|discriminate]. cbn. intros [= <- <-]. eauto.
Qed.


(** The ways in which [scanstring] succeeds. *)
Lemma scanstring_cases x b r :
  Json.scanstring x = Some (b, r) ->
  (x = String dquote r /\ b = EmptyString)
  \/ (exists c y, x = String c y
                  /\ (c =? dquote)%char = false /\ (c =? "\")%char = false
                  /\ (code c <? 32)%nat = false
                  /\ Json.emit (String c EmptyString) (Json.scanstring y) = Some (b, r))
  \/ (exists e ch y, x = String "\" (String e y)
                     /\ (e =? "u")%char = false /\ Json.unescape e = Some ch
                     /\ Json.emit (String ch EmptyString) (Json.scanstring y) = Some (b, r))
  \/ (exists h1 h2 h3 h4 uni y,
         x = six "\" "u" h1 h2 h3 h4 y
         /\ Json.hex4 h1 h2 h3 h4 = Some uni
         /\ after_escape uni y = Some (b, r)).
Proof.
  destruct x as [|c x]; [discriminate|].
  destruct (Ascii.eqb_spec c dquote) as [->|Hq].
  { cbn. intros [= <- <-]. now left. }
  destruct (Ascii.eqb_spec c "\") as [->|Hb].
  - destruct x as [|e x]; [discriminate|].
    destruct (Ascii.eqb_spec e "u") as [->|Hu].
    + destruct x as [|h1 [|h2 [|h3 [|h4 y]]]]; try discriminate.
      rewrite scanstring_unicode.
      destruct (Json.hex4 h1 h2 h3 h4) as [uni|] eqn:Hx; [|discriminate].
      intros H. right. right. right. exists h1, h2, h3, h4, uni, y. auto.
    + apply Ascii.eqb_neq in Hu. rewrite (scanstring_escape _ _ Hu).
      destruct (Json.unescape e) as [ch|] eqn:He; [|discriminate].
      intros H. right. right. left. exists e, ch, x. auto.
  - apply Ascii.eqb_neq in Hq, Hb.
    destruct (code c <? 32)%nat eqn:Hc.
    + cbn [Json.scanstring]. now rewrite Hq, Hb, Hc.
    + rewrite (scanstring_plain _ _ Hq Hb Hc).
      intros H. right. left. exists c, x. auto.
Qed.

(** The ways in which the scan goes on after a unicode escape. *)
Lemma after_escape_cases uni x b r :
  after_escape uni x = Some (b, r) ->
  (Json.emit (Json.utf8 uni) (Json.scanstring x) = Some (b, r)
   /\ (Json.is_high_surrogate uni = false
       \/ forall y, x <> String "\" (String "u" y)))
  \/ (exists g1 g2 g3 g4 uni2 y,
         x = six "\" "u" g1 g2 g3 g4 y
         /\ Json.is_high_surrogate uni = true
         /\ Json.hex4 g1 g2 g3 g4 = Some uni2
         /\ ((Json.is_low_surrogate uni2 = true
              /\ Json.emit (Json.utf8 (65536 + (uni - 55296) * 1024 + (uni2 - 56320))%N)
                           (Json.scanstring y) = Some (b, r))
             \/ (Json.is_low_surrogate uni2 = false
                 /\ Json.emit (Json.utf8 uni) (Json.scanstring x) = Some (b, r)))).
Proof.
  destruct x as [|c1 [|c2 y]].
  - cbn. discriminate.
  - intros H. left. split; [exact H|]. right. intros y. discriminate.
  - cbn [after_escape].
    destruct (Json.is_high_surrogate uni) eqn:Hh; cbn [andb].
    2:{ intros H. left. auto. }
    destruct (Ascii.eqb_spec c1 "\") as [->|H1]; cbn [andb].
    2:{ intros H. left. split; [exact H|]. right. intros z [= ? _]. contradiction. }
    destruct (Ascii.eqb_spec c2 "u") as [->|H2].
    2:{ intros H. left. split; [exact H|]. right. intros z [= ? _]. contradiction. }
    destruct y as [|g1 [|g2 [|g3 [|g4 y]]]]; try discriminate.
    destruct (Json.hex4 g1 g2 g3 g4) as [uni2|] eqn:Hx; [|discriminate].
    intros H. right. exists g1, g2, g3, g4, uni2, y.
    split; [reflexivity|]. split; [reflexivity|]. split; [exact Hx|].
    destruct (Json.is_low_surrogate uni2); auto.
Qed.

(** [scanstring] consumes at least the closing quote. *)
Lemma scanstring_shorter n :
  forall x b r,
    (String.length x <= n)%nat ->
    Json.scanstring x = Some (b, r) -> (String.length r < String.length x)%nat.
Proof.
  induction n as [|n IH]; intros x b r Hn H.
  { destruct x; [discriminate | cbn in Hn; lia]. }
  assert (K : forall chunk y,
             (String.length y <= n)%nat ->
             Json.emit chunk (Json.scanstring y) = Some (b, r) ->
             (String.length r < String.length y)%nat).
  { intros chunk y Hy E. apply emit_some in E as (b' & E & _). eapply IH; eauto. }
  apply scanstring_cases in H
      as [(-> & _)|[(c & y & -> & _ & _ & _ & E)|[(e & ch & y & -> & _ & _ & E)
                   |(h1 & h2 & h3 & h4 & uni & y & -> & _ & E)]]]; cbn in Hn |- *.
  - lia.
  - apply K in E; lia.
  - apply K in E; lia.
  - apply after_escape_cases in E
        as [(E & _)|(g1 & g2 & g3 & g4 & uni2 & z & -> & _ & _ & [(_ & E)|(_ & E)])];
      cbn in Hn; apply K in E; cbn in *; lia.
Qed.

Lemma scanstring_consumes x b r :
  Json.scanstring x = Some (b, r) -> (String.length r < String.length x)%nat.
Proof. now apply (scanstring_shorter (String.length x)). Qed.

(** A text known to start with [a] and to be consumed beyond it. *)
Lemma split_head a z t r :
  String a z = t ++ r -> (String.length r <= String.length z)%nat ->
  exists t', t = String a t' /\ z = t' ++ r.
Proof.
  destruct t as [|a' t']; cbn.
  - intros <-. cbn. lia.
  - intros [= <- ->] _. eauto.
Qed.

Lemma emit_consumes chunk y b r :
  Json.emit chunk (Json.scanstring y) = Some (b, r) ->
  (String.length r < String.length y)%nat.
Proof.
  intros E. apply emit_some in E as (b' & E & _). eapply scanstring_consumes; eauto.
Qed.

Lemma after_escape_consumes uni y b r :
  after_escape uni y = Some (b, r) -> (String.length r < String.length y)%nat.
Proof.
  intros E.
  apply after_escape_cases in E
      as [(E & _)|(g1 & g2 & g3 & g4 & uni2 & z & -> & _ & _ & [(_ & E)|(_ & E)])];
    apply emit_consumes in E; cbn in *; lia.
Qed.

Lemma scanstring_backslash w b r :
  Json.scanstring (String "\" w) = Some (b, r) ->
  exists e y, w = String e y /\ (String.length r < String.length y)%nat.
Proof.
  intros H.
  apply scanstring_cases in H
      as [(E & _)|[(c & y & E & _ & Hb & _)|[(e & ch & y & E & _ & _ & H)
                  |(h1 & h2 & h3 & h4 & uni & y & E & _ & H)]]].
  - discriminate.
  - injection E as <- _. discriminate.
  - injection E as ->. apply emit_consumes in H. eauto.
  - injection E as ->. apply after_escape_consumes in H.
    eexists _, _. split; [reflexivity|]. cbn. lia.
Qed.

Lemma scanstring_unicode_consumes g1 g2 g3 g4 z b r :
  Json.scanstring (six "\" "u" g1 g2 g3 g4 z) = Some (b, r) ->
  (String.length r < String.length z)%nat.
Proof.
  unfold six. rewrite scanstring_unicode.
  destruct (Json.hex4 g1 g2 g3 g4); [|discriminate]. apply after_escape_consumes.
Qed.

Lemma after_escape_plain uni y :
  Json.is_high_surrogate uni = false \/ (forall z, y <> String "\" (String "u" z)) ->
  after_escape uni y = Json.emit (Json.utf8 uni) (Json.scanstring y).
Proof.
  intros H. destruct y as [|c1 [|c2 z]]; try reflexivity.
  cbn [after_escape].
  destruct (Json.is_high_surrogate uni); [|reflexivity].
  destruct H as [H|H]; [discriminate|].
  destruct (Ascii.eqb_spec c1 "\") as [->|]; [|reflexivity].
  destruct (Ascii.eqb_spec c2 "u") as [->|]; [|reflexivity].
  now destruct (H z).
Qed.

Lemma after_escape_pair uni g1 g2 g3 g4 uni2 z :
  Json.is_high_surrogate uni = true ->
  Json.hex4 g1 g2 g3 g4 = Some uni2 ->
  after_escape uni (six "\" "u" g1 g2 g3 g4 z)
  = if Json.is_low_surrogate uni2
    then Json.emit (Json.utf8 (65536 + (uni - 55296) * 1024 + (uni2 - 56320))%N)
                   (Json.scanstring z)
    else Json.emit (Json.utf8 uni) (Json.scanstring (six "\" "u" g1 g2 g3 g4 z)).
Proof.
  intros Hh Hx. unfold six. cbn [after_escape Ascii.eqb Bool.eqb andb].
  now rewrite Hh, Hx.
Qed.

(** The text [scanstring] consumes ends with the closing quote, and is read
    the same way whatever follows it. *)
Lemma scanstring_local_upto n :
  forall x b r,
    (String.length x <= n)%nat ->
    Json.scanstring x = Some (b, r) ->
    exists t,
      x = t ++ r /\ last_printable t = true /\ reads Json.scanstring anything t b.
Proof.
  unfold reads.
  induction n as [|n IH]; intros x b r Hn H.
  { destruct x; [discriminate | cbn in Hn; lia]. }
  assert (K : forall chunk y,
             (String.length y <= n)%nat ->
             Json.emit chunk (Json.scanstring y) = Some (b, r) ->
             exists t,
               y = t ++ r /\ last_printable t = true
               /\ forall r', Json.emit chunk (Json.scanstring (t ++ r')) = Some (b, r')).
  { intros chunk y Hy E. apply emit_some in E as (b' & E & ->).
    destruct (IH _ _ _ Hy E) as (t & -> & Hl & Kt).
    exists t. repeat split; trivial. intros r'. now rewrite Kt. }
  apply scanstring_cases in H
      as [(-> & ->)|[(c & y & -> & Hq & Hb & Hc & E)|[(e & ch & y & -> & Hu & He & E)
                    |(h1 & h2 & h3 & h4 & uni & y & -> & Hx & E)]]]; cbn in Hn.
  - exists (String dquote EmptyString). repeat split.
  - apply K in E as (t & -> & Hl & Kt); [|lia].
    exists (String c t). split; [reflexivity|]. split.
    + now rewrite last_printable_cons by now apply last_printable_nonempty.
    + intros r' _. cbn [append]. now rewrite (scanstring_plain _ _ Hq Hb Hc).
  - apply K in E as (t & -> & Hl & Kt); [|lia].
    exists (String "\" (String e t)). split; [reflexivity|]. split.
    + cbn [last_printable]. destruct t; [discriminate | exact Hl].
    + intros r' _. cbn [append]. now rewrite (scanstring_escape _ _ Hu), He.
  - assert (L : exists t,
               y = t ++ r /\ last_printable t = true
               /\ forall r', after_escape uni (t ++ r') = Some (b, r')).
    { pose proof E as E0.
      apply after_escape_cases in E
          as [(E & Hp)|(g1 & g2 & g3 & g4 & uni2 & z & -> & Hh & Hx2 & [(Hl & E)|(Hl & E)])].
      - pose proof E as E1. apply emit_some in E1 as (b' & E1 & _).
        apply K in E as (t & -> & Ht & Kt); [|lia].
        exists t. repeat split; trivial. intros r'.
        rewrite after_escape_plain; [apply Kt|].
        destruct Hp as [Hp|Hp]; [now left | right].
        intros z Hz.
        destruct t as [|c1 t]; [discriminate|].
        cbn in Hz. injection Hz as -> Hz.
        cbn [append] in E1.
        destruct (scanstring_backslash _ _ _ E1) as (e & y2 & Ey & Hlen).
        destruct (split_head _ _ _ _ (eq_sym Ey)) as (t2 & -> & ->); [lia|].
        cbn in Hz. injection Hz as -> _.
        now destruct (Hp (t2 ++ r)).
      - unfold six in Hn. cbn in Hn. apply K in E as (t & -> & Ht & Kt); [|lia].
        exists (six "\" "u" g1 g2 g3 g4 t). split; [reflexivity|]. split.
        + unfold six. cbn [last_printable]. destruct t; [discriminate | exact Ht].
        + intros r'. change (six "\" "u" g1 g2 g3 g4 t ++ r')
            with (six "\" "u" g1 g2 g3 g4 (t ++ r')).
          now rewrite (after_escape_pair _ _ _ _ _ _ _ Hh Hx2), Hl.
      - pose proof E as E1. apply emit_some in E1 as (b' & E1 & _).
        apply scanstring_unicode_consumes in E1.
        unfold six in Hn. cbn in Hn.
        apply K in E as (t & Et & Ht & Kt); [|unfold six; cbn; lia].
        unfold six in Et.
        destruct (split_head _ _ _ _ Et) as (t1 & -> & Et1); [cbn; lia|].
        destruct (split_head _ _ _ _ Et1) as (t2 & -> & Et2); [cbn; lia|].
        destruct (split_head _ _ _ _ Et2) as (t3 & -> & Et3); [cbn; lia|].
        destruct (split_head _ _ _ _ Et3) as (t4 & -> & Et4); [cbn; lia|].
        destruct (split_head _ _ _ _ Et4) as (t5 & -> & Et5); [cbn; lia|].
        destruct (split_head _ _ _ _ Et5) as (t6 & -> & ->); [lia|].
        exists (six "\" "u" g1 g2 g3 g4 t6). split; [reflexivity|]. split; [exact Ht|].
        intros r'. change (six "\" "u" g1 g2 g3 g4 t6 ++ r')
          with (six "\" "u" g1 g2 g3 g4 (t6 ++ r')).
        rewrite (after_escape_pair _ _ _ _ _ _ _ Hh Hx2), Hl. apply Kt. }
    destruct L as (t & -> & Hl & Kt).
    exists (six "\" "u" h1 h2 h3 h4 t). split; [reflexivity|]. split.
    + unfold six. cbn [last_printable]. destruct t; [discriminate | exact Hl].
    + intros r' _. change (six "\" "u" h1 h2 h3 h4 t ++ r')
        with (six "\" "u" h1 h2 h3 h4 (t ++ r')).
      unfold six. now rewrite scanstring_unicode, Hx.
Qed.

Lemma scanstring_local x b r :
  Json.scanstring x = Some (b, r) ->
  exists t, x = t ++ r /\ last_printable t = true /\ reads Json.scanstring anything t b.
Proof. now apply (scanstring_local_upto (String.length x)). Qed.

(** ** Values *)

Lemma app_nonempty_r a b : b <> EmptyString -> a ++ b <> EmptyString.
Proof. destruct a; [trivial | discriminate]. Qed.

Ltac nonempty :=
  first [ discriminate
        | apply last_printable_nonempty; assumption
        | apply app_nonempty_r; nonempty ].

Ltac last_tac :=
  repeat first [ rewrite last_printable_app by nonempty
               | rewrite last_printable_cons by nonempty ];
  first [ assumption | reflexivity ].

Ltac sassoc := repeat (rewrite sapp_assoc || cbn [append]).

Lemma skip_ws_found s c r :
  Json.skip_ws s = String c r ->
  exists w, s = w ++ String c r /\ all_ws w = true /\ Json.is_ws c = false.
Proof.
  intros H. destruct (skip_ws_split s) as (w & E & Hw). rewrite H in E.
  exists w. repeat split; trivial. eapply skip_ws_head; eauto.
Qed.

Lemma skip_ws_to w c r :
  all_ws w = true -> Json.is_ws c = false ->
  Json.skip_ws (w ++ String c r) = String c r.
Proof. intros Hw Hc. now rewrite skip_ws_app, skip_ws_stop. Qed.

Lemma head_printable_split t :
  head_printable t = true -> exists c t', t = String c t' /\ printable c = true.
Proof. destruct t as [|c t]; [discriminate | eauto]. Qed.

Lemma delim_after w c r :
  all_ws w = true -> (c = "]" \/ c = "," \/ c = "}")%char -> delim (w ++ String c r) = true.
Proof.
  intros Hw Hc. destruct w as [|a w].
  - destruct Hc as [->|[->| ->]]; reflexivity.
  - cbn in Hw. apply andb_true_iff in Hw as [Ha _]. now apply delim_ws.
Qed.

Lemma scan_once_string g x :
  Json.scan_once (S g) (String dquote x)
  = match Json.scanstring x with
    | Some (t, rest) => Some (JStr t, rest)
    | None => None
    end.
Proof. reflexivity. Qed.

Lemma scan_once_object g x :
  Json.scan_once (S g) (String "{" x)
  = match Json.skip_ws x with
    | String c1 r1 =>
        if (c1 =? "}")%char then Some (JObj [], r1)
        else if (c1 =? dquote)%char then Json.members g [] r1
        else None
    | EmptyString => None
    end.
Proof. reflexivity. Qed.

Lemma scan_once_array g x :
  Json.scan_once (S g) (String "[" x)
  = match Json.skip_ws x with
    | String c1 r1 =>
        if (c1 =? "]")%char then Some (JArr [], r1)
        else Json.elements g [] (Json.skip_ws x)
    | EmptyString => None
    end.
Proof. reflexivity. Qed.

Lemma scan_once_atom g c x :
  (c =? dquote)%char = false -> (c =? "{")%char = false -> (c =? "[")%char = false ->
  Json.scan_once (S g) (String c x) = Json.scan_atom (String c x).
Proof. intros H1 H2 H3. cbn [Json.scan_once]. now rewrite H1, H2, H3. Qed.

Lemma elements_step g acc x :
  Json.elements (S g) acc x
  = match Json.scan_once g x with
    | None => None
    | Some (v, r) =>
        match Json.skip_ws r with
        | String c r1 =>
            if (c =? "]")%char then Some (JArr (acc ++ [v]), r1)
            else if (c =? ",")%char then Json.elements g (acc ++ [v]) (Json.skip_ws r1)
            else None
        | EmptyString => None
        end
    end.
Proof. reflexivity. Qed.

Lemma members_step g acc x :
  Json.members (S g) acc x
  = match Json.scanstring x with
    | None => None
    | Some (key, r) =>
        match Json.skip_ws r with
        | String c r1 =>
            if (c =? ":")%char then
              match Json.scan_once g (Json.skip_ws r1) with
              | None => None
              | Some (v, r2) =>
                  match Json.skip_ws r2 with
                  | String c2 r3 =>
                      if (c2 =? "}")%char then Some (JObj (dict_set key v acc), r3)
                      else if (c2 =? ",")%char then
                        match Json.skip_ws r3 with
                        | String c3 r4 =>
                            if (c3 =? dquote)%char
                            then Json.members g (dict_set key v acc) r4
                            else None
                        | EmptyString => None
                        end
                      else None
                  | EmptyString => None
                  end
              end
            else None
        | EmptyString => None
        end
    end.
Proof. reflexivity. Qed.


Lemma value_local_step f :
  value_local f -> elements_local f -> members_local f -> value_local (S f).
Proof.
  intros Pv Pe Pm x v r H.
  destruct x as [|c x]; [discriminate|].
  destruct (Ascii.eqb_spec c dquote) as [->|Hq].
  { rewrite scan_once_string in H.
    destruct (Json.scanstring x) as [[s rest]|] eqn:Hs; [|discriminate].
    injection H as <- <-.
    destruct (scanstring_local _ _ _ Hs) as (t & -> & Hl & Kt).
    exists (String dquote t). split; [reflexivity|]. split; [reflexivity|].
    split; [last_tac|].
    intros g r' _ Hg. destruct g as [|g]; [cbn in Hg; lia|].
    cbn [append]. now rewrite scan_once_string, Kt. }
  destruct (Ascii.eqb_spec c "{") as [->|Ho].
  { rewrite scan_once_object in H.
    destruct (Json.skip_ws x) as [|c1 x1] eqn:Hw; [discriminate|].
    destruct (skip_ws_found _ _ _ Hw) as (w & -> & Hww & Hc1).
    destruct (Ascii.eqb_spec c1 "}") as [->|Hc].
    - injection H as <- <-.
      exists (String "{" (w ++ String "}" EmptyString)).
      split; [now sassoc|]. split; [reflexivity|]. split; [last_tac|].
      intros g r' _ Hg. destruct g as [|g]; [cbn in Hg; lia|].
      sassoc. now rewrite scan_once_object, skip_ws_to.
    - destruct (Ascii.eqb_spec c1 dquote) as [->|]; [|discriminate].
      destruct (Pm _ _ _ _ H) as (t & -> & Hl & Kt).
      exists (String "{" (w ++ String dquote t)).
      split; [now sassoc|]. split; [reflexivity|]. split; [last_tac|].
      intros g r' _ Hg. destruct g as [|g]; [cbn in Hg; lia|].
      sassoc. rewrite scan_once_object, skip_ws_to by trivial.
      cbn [Ascii.eqb Bool.eqb dquote]. apply Kt.
      cbn in Hg. rewrite slength_app in Hg. cbn in Hg. lia. }
  destruct (Ascii.eqb_spec c "[") as [->|Ha].
  { rewrite scan_once_array in H.
    destruct (Json.skip_ws x) as [|c1 x1] eqn:Hw; [discriminate|].
    destruct (skip_ws_found _ _ _ Hw) as (w & -> & Hww & Hc1).
    destruct (Ascii.eqb_spec c1 "]") as [->|Hc].
    - injection H as <- <-.
      exists (String "[" (w ++ String "]" EmptyString)).
      split; [now sassoc|]. split; [reflexivity|]. split; [last_tac|].
      intros g r' _ Hg. destruct g as [|g]; [cbn in Hg; lia|].
      sassoc. now rewrite scan_once_array, skip_ws_to.
    - destruct (Pe _ _ _ _ H) as (t & E & Hh & Hl & Kt).
      destruct (head_printable_split _ Hh) as (c0 & t' & -> & Hp).
      cbn in E. injection E as <- ->.
      exists (String "[" (w ++ String c1 t')).
      split; [now sassoc|]. split; [reflexivity|]. split; [last_tac|].
      intros g r' _ Hg. destruct g as [|g]; [cbn in Hg; lia|].
      sassoc. rewrite scan_once_array, skip_ws_to by trivial.
      destruct (Ascii.eqb_spec c1 "]") as [?|_]; [contradiction|].
      apply (Kt g r'). cbn in Hg. rewrite slength_app in Hg. cbn in Hg |- *. lia. }
  apply Ascii.eqb_neq in Hq, Ho, Ha.
  rewrite (scan_once_atom _ _ _ Hq Ho Ha) in H.
  destruct (scan_atom_local _ _ _ H) as (t & E & Hh & Hl & Kt).
  exists t. repeat split; trivial.
  intros g r' Hr Hg.
  destruct (head_printable_split _ Hh) as (c0 & t' & -> & Hp).
  cbn in E. injection E as <- _.
  destruct g as [|g]; [cbn in Hg; lia|].
  cbn [append]. rewrite (scan_once_atom _ _ _ Hq Ho Ha). now apply Kt.
Qed.

Ltac slen :=
  repeat (rewrite slength_app in * || cbn [String.length append] in * );
  lia.

Lemma elements_local_step f :
  value_local f -> elements_local f -> elements_local (S f).
Proof.
  intros Pv Pe acc x v r H. rewrite elements_step in H.
  destruct (Json.scan_once f x) as [[v1 r1]|] eqn:Hv; [|discriminate].
  destruct (Pv _ _ _ Hv) as (t1 & -> & Hh1 & Hl1 & K1).
  destruct (Json.skip_ws r1) as [|c r2] eqn:Hw; [discriminate|].
  destruct (skip_ws_found _ _ _ Hw) as (w & -> & Hww & Hc).
  destruct (Ascii.eqb_spec c "]") as [->|Hc1].
  - injection H as <- <-.
    exists (t1 ++ w ++ String "]" EmptyString).
    split; [now sassoc|]. split; [now apply head_printable_app|]. split; [last_tac|].
    intros g r' Hg. destruct g as [|g].
    { destruct t1; [discriminate | cbn in Hg; lia]. }
    sassoc. rewrite elements_step, K1.
    + now rewrite skip_ws_to.
    + apply delim_after; auto.
    + rewrite !slength_app in Hg. cbn in Hg. lia.
  - destruct (Ascii.eqb_spec c ",") as [->|]; [|discriminate].
    destruct (Pe _ _ _ _ H) as (t2 & E & Hh2 & Hl2 & K2).
    destruct (skip_ws_split r2) as (w2 & E2 & Hw2). rewrite E in E2. subst r2.
    destruct (head_printable_split _ Hh2) as (c2 & t2' & -> & Hp2).
    exists (t1 ++ w ++ String "," (w2 ++ String c2 t2')).
    split; [now sassoc|]. split; [now apply head_printable_app|]. split; [last_tac|].
    intros g r' Hg. destruct g as [|g].
    { destruct t1; [discriminate | cbn in Hg; lia]. }
    sassoc. rewrite elements_step, K1.
    + rewrite skip_ws_to by trivial. cbn [Ascii.eqb Bool.eqb].
      rewrite skip_ws_to by (trivial; now apply printable_not_ws).
      apply (K2 g r'). rewrite !slength_app in Hg. cbn in Hg.
      rewrite slength_app in Hg. cbn in Hg |- *. lia.
    + apply delim_after; auto.
    + rewrite !slength_app in Hg. cbn in Hg. lia.
Qed.

Lemma members_local_step f :
  value_local f -> members_local f -> members_local (S f).
Proof.
  intros Pv Pm acc x v r H. rewrite members_step in H.
  destruct (Json.scanstring x) as [[key r0]|] eqn:Hk; [|discriminate].
  destruct (scanstring_local _ _ _ Hk) as (tk & -> & Hlk & Kk).
  destruct (Json.skip_ws r0) as [|c r1] eqn:Hw0; [discriminate|].
  destruct (skip_ws_found _ _ _ Hw0) as (w0 & -> & Hww0 & Hc0).
  destruct (Ascii.eqb_spec c ":") as [->|]; [|discriminate].
  destruct (Json.scan_once f (Json.skip_ws r1)) as [[v1 r2]|] eqn:Hv; [|discriminate].
  destruct (Pv _ _ _ Hv) as (tv & Ev & Hhv & Hlv & Kv).
  destruct (skip_ws_split r1) as (w1 & E1 & Hww1). rewrite Ev in E1. subst r1.
  destruct (head_printable_split _ Hhv) as (cv & tv' & -> & Hpv).
  destruct (Json.skip_ws r2) as [|c2 r3] eqn:Hw2; [discriminate|].
  destruct (skip_ws_found _ _ _ Hw2) as (w2 & -> & Hww2 & Hc2).
  assert (Hfuel : forall g a b, (String.length (tk ++ a) <= g)%nat ->
                    (String.length b < String.length a)%nat ->
                    exists g', g = S g' /\ (String.length b <= g')%nat).
  { intros g a b Hg Hab. rewrite slength_app in Hg.
    destruct g as [|g]; [lia|]. exists g. split; [reflexivity | lia]. }
  destruct (Ascii.eqb_spec c2 "}") as [->|Hc2'].
  - injection H as <- <-.
    exists (tk ++ w0 ++ String ":" (w1 ++ String cv tv' ++ w2 ++ String "}" EmptyString)).
    split; [now sassoc|]. split; [last_tac|].
    intros g r' Hg.
    destruct (Hfuel g _ (String cv tv') Hg) as (g' & -> & Hg').
    { slen. }
    sassoc. rewrite members_step, Kk by reflexivity.
    rewrite skip_ws_to by trivial. cbn [Ascii.eqb Bool.eqb].
    rewrite skip_ws_to by (trivial; now apply printable_not_ws).
    change (String cv (tv' ++ w2 ++ String "}" r'))
      with (String cv tv' ++ (w2 ++ String "}" r')).
    rewrite Kv; [|apply delim_after; auto|exact Hg'].
    now rewrite skip_ws_to.
  - destruct (Ascii.eqb_spec c2 ",") as [->|]; [|discriminate].
    destruct (Json.skip_ws r3) as [|c3 r4] eqn:Hw3; [discriminate|].
    destruct (skip_ws_found _ _ _ Hw3) as (w3 & -> & Hww3 & Hc3).
    destruct (Ascii.eqb_spec c3 dquote) as [->|]; [|discriminate].
    destruct (Pm _ _ _ _ H) as (t4 & -> & Hl4 & K4).
    exists (tk ++ w0 ++ String ":" (w1 ++ String cv tv' ++ w2
                                   ++ String "," (w3 ++ String dquote t4))).
    split; [now sassoc|]. split; [last_tac|].
    intros g r' Hg.
    destruct (Hfuel g _ (String cv tv' ++ t4) Hg) as (g' & -> & Hg').
    { slen. }
    rewrite slength_app in Hg'.
    sassoc. rewrite members_step, Kk by reflexivity.
    rewrite skip_ws_to by trivial. cbn [Ascii.eqb Bool.eqb].
    rewrite skip_ws_to by (trivial; now apply printable_not_ws).
    change (String cv (tv' ++ w2 ++ String "," (w3 ++ String dquote (t4 ++ r'))))
      with (String cv tv' ++ (w2 ++ String "," (w3 ++ String dquote (t4 ++ r')))).
    rewrite Kv; [|apply delim_after; auto|lia].
    rewrite skip_ws_to by trivial. cbn [Ascii.eqb Bool.eqb].
    rewrite skip_ws_to by trivial. cbn [Ascii.eqb Bool.eqb dquote].
    apply K4. lia.
Qed.

Theorem scanners_local f : value_local f /\ elements_local f /\ members_local f.
Proof.
  induction f as [|f (Pv & Pe & Pm)].
  - repeat split; [intros x v r|intros acc x v r|intros acc x v r]; discriminate.
  - repeat split.
    + now apply value_local_step.
    + now apply elements_local_step.
    + now apply members_local_step.
Qed.

(** ** [json.loads] and [str.strip] *)

(** The fuel [loads] gives is enough: a text decoded with some fuel is
    decoded by [loads], to the same value. *)
Lemma loads_enough_fuel f s v : Json.decode f s = Some v -> Json.loads s = Some v.
Proof.
  unfold Json.loads, Json.decode.
  destruct (Json.scan_once f (Json.skip_ws s)) as [[v0 r]|] eqn:H; [|discriminate].
  destruct (Json.skip_ws r) eqn:Hr; [|discriminate]. intros [= ->].
  destruct (proj1 (scanners_local f) _ _ _ H) as (t & E & _ & _ & K).
  rewrite E, (K (S (String.length s)) r), Hr; trivial.
  - apply skip_ws_all in Hr. destruct r as [|c r]; [reflexivity|].
    cbn in Hr. apply andb_true_iff in Hr as [Hc _]. now apply delim_ws.
  - destruct (skip_ws_split s) as (w & Es & _).
    rewrite Es, E, !slength_app. lia.
Qed.

Lemma rev_string_app acc s : rev_string acc s = string_rev s ++ acc.
Proof.
  unfold string_rev. revert acc. induction s as [|c s IH]; intros acc; cbn.
  - reflexivity.
  - rewrite (IH (String c acc)), (IH (String c EmptyString)). now rewrite sapp_assoc.
Qed.

Lemma string_rev_cons c s : string_rev (String c s) = string_rev s ++ String c EmptyString.
Proof. unfold string_rev at 1. cbn. apply rev_string_app. Qed.

Lemma string_rev_app a b : string_rev (a ++ b) = string_rev b ++ string_rev a.
Proof.
  induction a as [|c a IH]; cbn [append].
  - now rewrite sapp_nil_r.
  - now rewrite !string_rev_cons, IH, sapp_assoc.
Qed.

Lemma string_rev_involutive s : string_rev (string_rev s) = s.
Proof.
  induction s as [|c s IH]; [reflexivity|].
  now rewrite string_rev_cons, string_rev_app, IH.
Qed.


















(** ** The monads *)

Lemma bind_ok {A B} (m : Net A) (k : A -> Net B) srv h a h' :
  m srv h = (Ok a, h') -> bind m k srv h = k a srv h'.
Proof. intros E. unfold bind. now rewrite E. Qed.

Lemma bind_raise {A B} (m : Net A) (k : A -> Net B) srv h e h' :
  m srv h = (Raise e, h') -> bind m k srv h = (Raise e, h').
Proof. intros E. unfold bind. now rewrite E. Qed.

Lemma send_reply rq srv h resp :
  srv h rq = Some resp -> send rq srv h = (Ok resp, (h ++ [rq])%list).
Proof. intros E. unfold send. now rewrite E. Qed.

Lemma send_unreachable rq srv h :
  srv h rq = None -> send rq srv h = (Raise ConnectionError, (h ++ [rq])%list).
Proof. intros E. unfold send. now rewrite E. Qed.

(** ** [build_prompt] *)

(** C7.  [build_prompt] is a function of the card names and the context label
    alone: equal card lists and equal labels give the same string; and that
    string is a fixed template around the card names joined with a comma and a
    space and the label. *)
Theorem build_prompt_deterministic_template :
  (forall cards1 cards2 context1 context2,
      cards1 = cards2 -> context1 = context2 ->
      build_prompt cards1 context1 = build_prompt cards2 context2)
  /\ (exists head middle tail,
         forall cards context,
           build_prompt cards context
           = head ++ join ", " cards ++ middle ++ context ++ tail).
Proof.
  split.
  - intros cards1 cards2 context1 context2 Hc Hx. now rewrite Hc, Hx.
  - eexists _, _, _. intros cards context. unfold build_prompt. reflexivity.
Qed.

Lemma build_prompt_deterministic_template_witness :
  build_prompt ["The Fool"; "The Sun"] "Career"
  = build_prompt ["The Fool"; "The Sun"] "Career".
Proof.
  apply (proj1 build_prompt_deterministic_template); reflexivity.
Defined.

(** ** [search_tracks] *)

Lemma append_tracks_entries genre items group acc :
  entries_of genre items group ->
  append_tracks genre items acc = Ok (acc ++ group)%list.
Proof.
  intros H. revert acc.
  induction H as [|t e items group Ht _ IH]; intros acc; simpl.
  - now rewrite app_nil_r.
  - rewrite Ht. simpl. rewrite IH, <- app_assoc. reflexivity.
Qed.

Lemma append_tracks_ok genre items acc res :
  append_tracks genre items acc = Ok res ->
  exists group, entries_of genre items group /\ res = (acc ++ group)%list.
Proof.
  revert acc res. induction items as [|t items IH]; intros acc res; simpl.
  - intros [= <-]. exists []. split; [constructor | now rewrite app_nil_r].
  - destruct (track_entry genre t) as [e|x] eqn:Ht; simpl; [|discriminate].
    intros H. apply IH in H as (group & Hg & ->).
    exists (e :: group). split; [now constructor | now rewrite <- app_assoc].
Qed.

Lemma append_tracks_raise genre items acc t x :
  In t items -> track_entry genre t = Raise x ->
  exists e, append_tracks genre items acc = Raise e.
Proof.
  revert acc. induction items as [|u items IH]; intros acc Hin Ht; [easy|].
  simpl. destruct (track_entry genre u) as [e|y] eqn:Hu; simpl.
  - destruct Hin as [->|Hin]; [congruence|]. now apply IH.
  - now exists y.
Qed.

Lemma track_entry_genre genre t e :
  track_entry genre t = Ok e -> track_genre e = genre.
Proof.
  unfold track_entry, rbind.
  repeat match goal with
         | |- context [match ?x with Ok _ => _ | Raise _ => _ end] => destruct x
         end; try discriminate.
  now intros [= <-].
Qed.

Lemma entries_of_genre genre items group :
  entries_of genre items group -> Forall (fun e => track_genre e = genre) group.
Proof.
  induction 1 as [|t e items group Ht _ IH]; constructor; auto.
  eapply track_entry_genre; eauto.
Qed.

Lemma entries_of_length genre items group :
  entries_of genre items group -> List.length group = List.length items.
Proof. intros H. symmetry. eapply Forall2_length; eauto. Qed.

(** One turn of the outer loop, in terms of [genre_items]. *)
Lemma search_loop_cons token limit genre rest acc srv h :
  search_loop [("Authorization", "Bearer " ++ token)] limit (genre :: rest) acc srv h
  = match genre_items token limit genre srv h with
    | (Ok items, h1) =>
        match append_tracks genre items acc with
        | Ok acc' =>
            search_loop [("Authorization", "Bearer " ++ token)] limit rest acc' srv h1
        | Raise e => (Raise e, h1)
        end
    | (Raise e, h1) => (Raise e, h1)
    end.
Proof.
  cbn [search_loop]. unfold genre_items, requests_get, search_request, bind, lift, ret.
  cbn [search_params dict_set String.eqb Ascii.eqb Bool.eqb].
  destruct (send _ srv h) as [[resp|e] h1]; [|reflexivity].
  destruct (track_items resp) as [v|e]; [|reflexivity].
  destruct (truthy v).
  - destruct (py_iter v); [|reflexivity]. destruct (append_tracks _ _ _); reflexivity.
  - destruct (send _ srv h1) as [[resp2|e] h2]; [|reflexivity].
    destruct (track_items resp2) as [v2|e]; [|reflexivity].
    destruct (py_iter v2); [|reflexivity]. destruct (append_tracks _ _ _); reflexivity.
Qed.

Lemma genre_items_from_service token limit genre srv h items h1 :
  genre_items token limit genre srv h = (Ok items, h1) ->
  exists h0 q resp v,
    (q = "genre:" ++ genre \/ q = genre)
    /\ srv h0 (search_request token q limit) = Some resp
    /\ track_items resp = Ok v
    /\ py_iter v = Ok items.
Proof.
  unfold genre_items, bind, lift, ret, send.
  destruct (srv h _) as [resp|] eqn:E1; [|discriminate].
  destruct (track_items resp) as [v|] eqn:E2; [|discriminate].
  destruct (truthy v).
  - destruct (py_iter v) as [l|] eqn:E3; [|discriminate]. intros [= <- <-].
    exists h, ("genre:" ++ genre), resp, v. auto.
  - destruct (srv _ (search_request token genre limit)) as [resp2|] eqn:E4; [|discriminate].
    destruct (track_items resp2) as [v2|] eqn:E5; [|discriminate].
    destruct (py_iter v2) as [l|] eqn:E3; [|discriminate]. intros [= <- <-].
    eexists _, genre, resp2, v2. eauto.
Qed.

(** The accumulator only grows: the loop returns what it was given followed
    by one group per genre, each built from a reply of the service. *)
Lemma search_loop_groups token limit srv genres :
  forall acc h res h',
    search_loop [("Authorization", "Bearer " ++ token)] limit genres acc srv h
    = (Ok res, h') ->
    exists groups,
      res = (acc ++ concat groups)%list
      /\ Forall2 (from_service srv token limit) genres groups.
Proof.
  induction genres as [|genre rest IH]; intros acc h res h' H.
  - cbn in H. injection H as <- <-. exists []. split; [now rewrite app_nil_r | constructor].
  - rewrite search_loop_cons in H.
    destruct (genre_items token limit genre srv h) as [[items|e] h1] eqn:Hi; [|discriminate].
    destruct (append_tracks genre items acc) as [acc'|e] eqn:Ha; [|discriminate].
    apply append_tracks_ok in Ha as (group & Hg & ->).
    apply IH in H as (groups & -> & HF).
    apply genre_items_from_service in Hi as (h0 & q & resp & v & Hq & Hs & Hv & Hit).
    exists (group :: groups). split.
    + cbn. now rewrite <- app_assoc.
    + constructor; [|exact HF]. exists h0, q, resp, v, items. auto.
Qed.

Lemma append_tracks_raise_any genre items acc acc' e :
  append_tracks genre items acc = Raise e ->
  append_tracks genre items acc' = Raise e.
Proof.
  revert acc acc'. induction items as [|t items IH]; intros acc acc'; cbn; [discriminate|].
  destruct (track_entry genre t); cbn; [apply IH | trivial].
Qed.

(** The loop started with an accumulator is the loop started empty, with the
    accumulator put in front of its result. *)
Lemma search_loop_acc token limit srv genres :
  forall acc h,
    search_loop [("Authorization", "Bearer " ++ token)] limit genres acc srv h
    = match search_loop [("Authorization", "Bearer " ++ token)] limit genres [] srv h with
      | (Ok res, h') => (Ok (acc ++ res)%list, h')
      | (Raise e, h') => (Raise e, h')
      end.
Proof.
  induction genres as [|genre rest IH]; intros acc h.
  - cbn. now rewrite app_nil_r.
  - rewrite !search_loop_cons.
    destruct (genre_items token limit genre srv h) as [[items|e] h1]; [|reflexivity].
    destruct (append_tracks genre items []) as [g0|e] eqn:H0.
    + apply append_tracks_ok in H0 as (group & Hg & ->). cbn [app].
      rewrite (append_tracks_entries _ _ _ acc Hg).
      rewrite (IH (acc ++ group)%list), (IH group).
      destruct (search_loop _ _ rest [] srv h1) as [[res|e] h2]; [|reflexivity].
      now rewrite <- app_assoc.
    + now rewrite (append_tracks_raise_any _ _ _ acc _ H0).
Qed.

Lemma search_loop_app token limit srv genres1 genres2 :
  forall acc h,
    search_loop [("Authorization", "Bearer " ++ token)] limit (genres1 ++ genres2) acc srv h
    = match search_loop [("Authorization", "Bearer " ++ token)] limit genres1 acc srv h with
      | (Ok acc', h') =>
          search_loop [("Authorization", "Bearer " ++ token)] limit genres2 acc' srv h'
      | (Raise e, h') => (Raise e, h')
      end.
Proof.
  induction genres1 as [|genre rest IH]; intros acc h.
  - reflexivity.
  - cbn [app]. rewrite !search_loop_cons.
    destruct (genre_items token limit genre srv h) as [[items|e] h1]; [|reflexivity].
    destruct (append_tracks genre items acc); [apply IH | reflexivity].
Qed.

(** C8.  With no genre, [search_tracks] returns the empty list and sends no
    request: the history of requests is unchanged. *)
Theorem search_tracks_no_genres token limit srv h :
  search_tracks [] token limit srv h = (Ok [], h).
Proof. reflexivity. Qed.

Lemma genre_items_filtered token limit genre srv h resp t items :
  srv h (search_request token ("genre:" ++ genre) limit) = Some resp ->
  track_items resp = Ok (JArr (t :: items)) ->
  genre_items token limit genre srv h
  = (Ok (t :: items), (h ++ [search_request token ("genre:" ++ genre) limit])%list).
Proof.
  intros Hs Hi. unfold genre_items, bind, lift, ret, send. now rewrite Hs, Hi.
Qed.

Lemma genre_items_fallback token limit genre srv h resp1 v resp2 items :
  srv h (search_request token ("genre:" ++ genre) limit) = Some resp1 ->
  track_items resp1 = Ok v ->
  truthy v = false ->
  srv (h ++ [search_request token ("genre:" ++ genre) limit])%list
      (search_request token genre limit) = Some resp2 ->
  track_items resp2 = Ok (JArr items) ->
  genre_items token limit genre srv h
  = (Ok items,
     (h ++ [search_request token ("genre:" ++ genre) limit;
            search_request token genre limit])%list).
Proof.
  intros Hs1 Hi1 Hv Hs2 Hi2. unfold genre_items, bind, lift, ret, send.
  rewrite Hs1, Hi1, Hv, Hs2, Hi2. cbn [py_iter]. now rewrite <- app_assoc.
Qed.

(** C2.  When the filtered search for a genre returns an empty list and the
    search for the bare genre string returns one item (with the fields the
    loop reads), the tracks collected for that genre are exactly the entry of
    that item: with [acc1] the tracks of the genres before it and [later]
    those of the genres after it, the result is [acc1 ++ e :: later]. *)
Theorem search_tracks_fallback_one_item
        srv token limit before genre after h0 acc1 h1 resp1 resp2 t e :
  search_tracks before token limit srv h0 = (Ok acc1, h1) ->
  srv h1 (search_request token ("genre:" ++ genre) limit) = Some resp1 ->
  track_items resp1 = Ok (JArr []) ->
  srv (h1 ++ [search_request token ("genre:" ++ genre) limit])%list
      (search_request token genre limit) = Some resp2 ->
  track_items resp2 = Ok (JArr [t]) ->
  track_entry genre t = Ok e ->
  search_tracks (before ++ genre :: after) token limit srv h0
  = match search_tracks after token limit srv
            (h1 ++ [search_request token ("genre:" ++ genre) limit;
                    search_request token genre limit])%list with
    | (Ok later, h') => (Ok (acc1 ++ e :: later)%list, h')
    | (Raise x, h') => (Raise x, h')
    end.
Proof.
  unfold search_tracks. intros Hb Hs1 Hi1 Hs2 Hi2 He.
  rewrite search_loop_app, Hb, search_loop_cons.
  rewrite (genre_items_fallback _ _ _ _ _ _ _ _ _ Hs1 Hi1 eq_refl Hs2 Hi2).
  cbn [append_tracks]. rewrite He. cbn [rbind].
  rewrite search_loop_acc.
  destruct (search_loop _ limit after [] srv _) as [[later|x] h']; [|reflexivity].
  now rewrite <- app_assoc.
Qed.

Lemma search_tracks_fallback_one_item_witness :
  search_tracks ([] ++ "lofi" :: ["jazz"]) "tok123" 3
                (Scenario.service Scenario.lofi_jazz Scenario.catalogue) []
  = match search_tracks ["jazz"] "tok123" 3
            (Scenario.service Scenario.lofi_jazz Scenario.catalogue)
            ([] ++ [search_request "tok123" ("genre:" ++ "lofi") 3;
                    search_request "tok123" "lofi" 3])%list with
    | (Ok later, h') =>
        (Ok ([] ++ mk_track (JStr "L1") (JStr "Low Tide") (JStr "Ana") "lofi"
                            (JStr "https://open.spotify.com/track/L1") :: later)%list, h')
    | (Raise x, h') => (Raise x, h')
    end.
Proof.
  eapply (search_tracks_fallback_one_item
            (Scenario.service Scenario.lofi_jazz Scenario.catalogue)
            "tok123" 3 [] "lofi" ["jazz"] [] [] []).
  - reflexivity.
  - reflexivity.
  - vm_compute. reflexivity.
  - reflexivity.
  - vm_compute. reflexivity.
  - reflexivity.
Defined.

(** C5.  The list returned by [search_tracks] is the concatenation, in the
    order of the genres, of one group per genre; each group has one entry per
    item of a reply of the service to a search for that genre, in the order
    of the items and with nothing dropped; and every entry of the group of a
    genre carries that genre. *)
Theorem search_tracks_flat_in_genre_order srv genres token limit h res h' :
  search_tracks genres token limit srv h = (Ok res, h') ->
  exists groups,
    res = concat groups
    /\ Forall2 (from_service srv token limit) genres groups
    /\ Forall2 (fun g group => Forall (fun e => track_genre e = g) group) genres groups.
Proof.
  unfold search_tracks. intros H.
  apply search_loop_groups in H as (groups & -> & HF).
  exists groups. repeat split; auto.
  clear -HF. induction HF as [|g group genres groups Hg _ IH]; constructor; auto.
  destruct Hg as (_ & _ & _ & _ & items & _ & _ & _ & _ & He).
  eapply entries_of_genre; eauto.
Qed.

Lemma search_tracks_flat_in_genre_order_witness :
  exists groups,
    [mk_track (JStr "L1") (JStr "Low Tide") (JStr "Ana") "lofi"
              (JStr "https://open.spotify.com/track/L1");
     mk_track (JStr "J1") (JStr "Blue Hour") (JStr "Ben") "jazz"
              (JStr "https://open.spotify.com/track/J1")] = concat groups
    /\ Forall2 (from_service (Scenario.service Scenario.lofi_jazz Scenario.catalogue)
                             "tok123" 3) ["lofi"; "jazz"] groups
    /\ Forall2 (fun g group => Forall (fun e => track_genre e = g) group)
               ["lofi"; "jazz"] groups.
Proof.
  eapply (search_tracks_flat_in_genre_order
            (Scenario.service Scenario.lofi_jazz Scenario.catalogue)
            ["lofi"; "jazz"] "tok123" 3 []).
  vm_compute. reflexivity.
Defined.

(** A track found for two genres is kept under both: nothing is removed
    across genres. *)
Lemma search_tracks_keeps_duplicates :
  exists h',
    search_tracks ["jazz"; "soul"] "tok123" default_limit
                  (Scenario.service Scenario.lofi_jazz Scenario.catalogue) []
    = (Ok [mk_track (JStr "J1") (JStr "Blue Hour") (JStr "Ben") "jazz"
                    (JStr "https://open.spotify.com/track/J1");
           mk_track (JStr "J1") (JStr "Blue Hour") (JStr "Ben") "soul"
                    (JStr "https://open.spotify.com/track/J1")], h').
Proof. eexists. vm_compute. reflexivity. Qed.

(** C6, as stated, fails: the service of [Scenario.four_items] answers a
    search with [limit] 3 by four items, and all four are collected for the
    genre. *)
Lemma per_genre_limit_exceeded :
  ~ at_most_limit_per_genre (Scenario.service Scenario.lofi_jazz Scenario.four_items)
      ["jazz"] "tok123" default_limit [].
Proof.
  unfold at_most_limit_per_genre. intros H.
  remember (search_tracks _ _ _ _ _) as r eqn:E. vm_compute in E. subst r.
  specialize (H _ _ eq_refl "jazz" (or_introl eq_refl)).
  vm_compute in H. now apply H.
Qed.

(** C6, amended.  [search_tracks] sends [limit] as the [limit] parameter of
    every search and collects every item of the reply it uses: the group of
    a genre is as long as the list of items the service returned, so no group
    is longer than [limit] when the service honours the parameter. *)
Theorem per_genre_limit_of_service srv genres token limit h res h' :
  honours_limit srv limit ->
  search_tracks genres token limit srv h = (Ok res, h') ->
  exists groups,
    res = concat groups
    /\ Forall2 (from_service srv token limit) genres groups
    /\ Forall (fun group => Z.of_nat (List.length group) <= limit) groups.
Proof.
  unfold search_tracks. intros Hl H.
  apply search_loop_groups in H as (groups & -> & HF).
  exists groups. repeat split; auto.
  clear -HF Hl. induction HF as [|g group genres groups Hg _ IH]; constructor; auto.
  destruct Hg as (h0 & q & resp & v & items & _ & Hs & Hv & Hi & He).
  rewrite (entries_of_length _ _ _ He).
  eapply Hl; eauto.
Qed.

Lemma per_genre_limit_of_service_witness :
  exists groups,
    [mk_track (JStr "L1") (JStr "Low Tide") (JStr "Ana") "lofi"
              (JStr "https://open.spotify.com/track/L1");
     mk_track (JStr "J1") (JStr "Blue Hour") (JStr "Ben") "jazz"
              (JStr "https://open.spotify.com/track/J1")] = concat groups
    /\ Forall2 (from_service (Scenario.service Scenario.lofi_jazz Scenario.catalogue)
                             "tok123" 3) ["lofi"; "jazz"] groups
    /\ Forall (fun group => Z.of_nat (List.length group) <= 3) groups.
Proof.
  eapply (per_genre_limit_of_service
            (Scenario.service Scenario.lofi_jazz Scenario.catalogue)
            ["lofi"; "jazz"] "tok123" 3 []).
  - intros h rq resp v items Hs _ Hv Hi.
    unfold Scenario.service, Scenario.catalogue in Hs.
    repeat match type of Hs with
           | context [if ?c then _ else _] => destruct c
           end;
      injection Hs as <-; vm_compute in Hv; injection Hv as <-;
      vm_compute in Hi; injection Hi as <-; vm_compute; discriminate.
  - vm_compute. reflexivity.
Defined.

Lemma getitem_int_empty : getitem_int (JArr []) 0 = Raise IndexError.
Proof. reflexivity. Qed.

(** An item from which an entry is built has every field the loop reads. *)
Lemma track_entry_ok_fields genre d e :
  track_entry genre (JObj d) = Ok e ->
  dict_lookup "id" d <> None
  /\ dict_lookup "name" d <> None
  /\ dict_lookup "artists" d <> None
  /\ dict_lookup "artists" d <> Some (JArr [])
  /\ exists u, dict_lookup "external_urls" d = Some (JObj u)
               /\ dict_lookup "spotify" u <> None.
Proof.
  unfold track_entry, rbind, getitem.
  destruct (dict_lookup "id" d) as [i|]; [|discriminate].
  destruct (dict_lookup "name" d) as [n|]; [|discriminate].
  destruct (dict_lookup "artists" d) as [a|]; [|discriminate].
  destruct (getitem_int a 0) as [first|] eqn:Ha; [|discriminate].
  destruct first as [| | | | | | |l|f]; try discriminate.
  destruct (dict_lookup "name" f); [|discriminate].
  destruct (dict_lookup "external_urls" d) as [urls|]; [|discriminate].
  destruct urls as [| | | | | | |l|u]; try discriminate.
  destruct (dict_lookup "spotify" u) eqn:Hu; [|discriminate].
  intros _. repeat split; try discriminate.
  - intros [= ->]. discriminate.
  - exists u. split; [reflexivity | now rewrite Hu].
Qed.

Lemma malformed_raises genre t :
  malformed t -> exists x, track_entry genre t = Raise x.
Proof.
  intros (d & -> & H).
  destruct (track_entry genre (JObj d)) as [e|x] eqn:E; [|now exists x].
  apply track_entry_ok_fields in E as (Hi & Hn & Ha & Ha' & u & Hu & Hs).
  destruct H as [H|[H|[H|[H|[H|(u' & H & H')]]]]]; try congruence.
Qed.

(** C9.  [search_tracks] reads the fields of every item without checking
    them: whenever the reply used for a genre holds an item that lacks
    [id], [name], [artists], [external_urls] or its [spotify], or whose list of
    artists is empty, [search_tracks] raises and returns no list.  In the
    run of the script against [Scenario.no_artist], that exception is the
    [IndexError] of the empty list of artists; the run is stopped with the
    error of the Spotify stage and no track is displayed. *)
Theorem malformed_item_aborts :
  (forall srv token limit genre rest h resp items t,
      srv h (search_request token ("genre:" ++ genre) limit) = Some resp ->
      track_items resp = Ok (JArr items) ->
      In t items ->
      malformed t ->
      exists e,
        search_tracks (genre :: rest) token limit srv h
        = (Raise e, (h ++ [search_request token ("genre:" ++ genre) limit])%list))
  /\ (let r := run Scenario.plain Scenario.keys Scenario.pressed
                   (Scenario.service Scenario.lofi_jazz Scenario.no_artist) in
      fst r = Stopped
      /\ last (page (snd r)) (Title EmptyString)
         = Error ("Error searching Spotify: " ++ exc_str Scenario.plain IndexError)
      /\ Forall (fun w => match w with Html _ _ => False | _ => True end) (page (snd r))).
Proof.
  split.
  - intros srv token limit genre rest h resp items t Hs Hi Hin Hm.
    unfold search_tracks. rewrite search_loop_cons.
    destruct items as [|t0 items]; [easy|].
    rewrite (genre_items_filtered _ _ _ _ _ _ _ _ Hs Hi).
    destruct (malformed_raises genre t Hm) as (x & Hx).
    destruct (append_tracks_raise genre (t0 :: items) [] t x Hin Hx) as (e & ->).
    now exists e.
  - vm_compute. repeat split; repeat constructor.
Qed.

Lemma malformed_item_aborts_witness :
  exists e,
    search_tracks ["jazz"; "lofi"] "tok123" 3
                  (Scenario.service Scenario.lofi_jazz Scenario.no_artist) []
    = (Raise e, ([] ++ [search_request "tok123" ("genre:" ++ "jazz") 3])%list).
Proof.
  eapply (proj1 malformed_item_aborts
                (Scenario.service Scenario.lofi_jazz Scenario.no_artist)
                "tok123" 3 "jazz" ["lofi"] []).
  - reflexivity.
  - vm_compute. reflexivity.
  - left. reflexivity.
  - eexists. split; [reflexivity|]. right. right. right. left. reflexivity.
Defined.

(** ** The checks of the HTTP status *)

Lemma raise_for_status_error resp :
  400 <= status_code resp < 600 ->
  raise_for_status resp = Raise (HTTPError (status_code resp)).
Proof.
  intros [H1 H2]. unfold raise_for_status.
  apply Z.leb_le in H1. apply Z.ltb_lt in H2. now rewrite H1, H2.
Qed.

(** The four calls that check the status raise [HTTPError] on an error
    status, whatever the body. *)
Lemma draw_tarot_cards_http_error n srv h resp :
  srv h (mk_request GET (TAROT_API_URL ++ "/cards/random") [] [("n", JInt n)] [] None)
  = Some resp ->
  400 <= status_code resp < 600 ->
  exists h', draw_tarot_cards n srv h = (Raise (HTTPError (status_code resp)), h').
Proof.
  intros Hs Hc. unfold draw_tarot_cards, requests_get, bind, lift, send.
  rewrite Hs, (raise_for_status_error _ Hc). eauto.
Qed.

Lemma get_tarot_reading_http_error cfg cards context srv h resp :
  srv h (mk_request POST GROQ_API_URL (groq_headers cfg) [] []
           (Some (chat_payload (build_prompt cards context) 512 (JFloat false 7 (-1)))))
  = Some resp ->
  400 <= status_code resp < 600 ->
  exists h', get_tarot_reading cfg cards context srv h
             = (Raise (HTTPError (status_code resp)), h').
Proof.
  intros Hs Hc. unfold get_tarot_reading, requests_post_json, bind, lift, send.
  rewrite Hs, (raise_for_status_error _ Hc). eauto.
Qed.

Lemma extract_genres_http_error cfg reading_text srv h resp :
  srv h (mk_request POST GROQ_API_URL (groq_headers cfg) [] []
           (Some (chat_payload (extraction_instruction ++ reading_text) 100
                               (JFloat false 0 (-1)))))
  = Some resp ->
  400 <= status_code resp < 600 ->
  exists h', extract_genres cfg reading_text srv h
             = (Raise (HTTPError (status_code resp)), h').
Proof.
  intros Hs Hc. unfold extract_genres, requests_post_json, bind, lift, send.
  rewrite Hs, (raise_for_status_error _ Hc). eauto.
Qed.

Lemma get_spotify_token_http_error cfg srv h resp :
  srv h (mk_request POST SPOTIFY_TOKEN_URL [] []
           [("grant_type", Some "client_credentials");
            ("client_id", SPOTIFY_CLIENT_ID cfg);
            ("client_secret", SPOTIFY_CLIENT_SECRET cfg)] None)
  = Some resp ->
  400 <= status_code resp < 600 ->
  exists h', get_spotify_token cfg srv h = (Raise (HTTPError (status_code resp)), h').
Proof.
  intros Hs Hc. unfold get_spotify_token, requests_post_form, bind, lift, send.
  rewrite Hs, (raise_for_status_error _ Hc). eauto.
Qed.

(** [search_tracks] never reads the status: the items it takes from a reply
    depend on the body alone. *)
Lemma track_items_ignores_status status1 status2 body :
  track_items (mk_response status1 body) = track_items (mk_response status2 body).
Proof. reflexivity. Qed.

(** C1 at the track search.  Against [Scenario.unauthorized], where every
    search is answered with status 401 and an error body, the run sends both
    searches for each genre, reaches its end, reports no error and shows the
    warning that no track was found. *)
Theorem search_http_error_not_reported :
  let r := run Scenario.plain Scenario.keys Scenario.pressed
               (Scenario.service Scenario.lofi_jazz Scenario.unauthorized) in
  fst r = Done tt
  /\ Forall (fun w => match w with Error _ => False | _ => True end) (page (snd r))
  /\ last (page (snd r)) (Title EmptyString)
     = Warning "No tracks found on Spotify for the recommended genres."
  /\ search_tracks ["lofi"; "jazz"] "tok123" default_limit
                   (Scenario.service Scenario.lofi_jazz Scenario.unauthorized) []
     = (Ok [],
        [search_request "tok123" "genre:lofi" 3; search_request "tok123" "lofi" 3;
         search_request "tok123" "genre:jazz" 3; search_request "tok123" "jazz" 3]).
Proof.
  vm_compute. repeat split; repeat constructor.
Qed.

(** A second place where a missing field is not reported by its stage: the
    names of the cards are read outside any [try], so a card without a name
    ends the run with an exception no handler sees, after the one request of
    the draw and with no error widget. *)
Lemma card_without_name_not_reported :
  let r := run Scenario.plain Scenario.keys Scenario.pressed
               (Scenario.override (TAROT_API_URL ++ "/cards/random")
                  Scenario.nameless_cards
                  (Scenario.service Scenario.lofi_jazz Scenario.catalogue)) in
  fst r = Uncaught (KeyError (JStr "name"))
  /\ List.length (sent (snd r)) = 1%nat
  /\ Forall (fun w => match w with Error _ => False | _ => True end) (page (snd r)).
Proof.
  vm_compute. repeat split; repeat constructor.
Qed.

(** ** Missing configuration *)

(** C3.  When the button is pressed and one of the three values is unset
    or empty, the run is stopped after an error whose text lists the names
    in [missing_keys], which holds the name of every value that is unset; no
    request has been sent. *)
Theorem missing_configuration_aborts R cfg c srv :
  clicked c = true ->
  unset (GROQ_API_KEY cfg) || unset (SPOTIFY_CLIENT_ID cfg)
  || unset (SPOTIFY_CLIENT_SECRET cfg) = true ->
  (exists shown,
      run R cfg c srv
      = (Stopped,
         mk_session []
           (shown ++ [Error ("Missing environment variables: "
                             ++ join ", " (missing_keys cfg)
                             ++ ". Add them to your `.env` file.")])))
  /\ (unset (GROQ_API_KEY cfg) = true -> In "GROQ_API_KEY" (missing_keys cfg))
  /\ (unset (SPOTIFY_CLIENT_ID cfg) = true -> In "SPOTIFY_CLIENT_ID" (missing_keys cfg))
  /\ (unset (SPOTIFY_CLIENT_SECRET cfg) = true
      -> In "SPOTIFY_CLIENT_SECRET" (missing_keys cfg)).
Proof.
  intros Hc Hm. unfold run, script, main_block, missing_keys.
  rewrite Hc.
  destruct (unset (GROQ_API_KEY cfg)), (unset (SPOTIFY_CLIENT_ID cfg)),
    (unset (SPOTIFY_CLIENT_SECRET cfg)); try discriminate Hm;
    (split;
     [exists (page (snd (run R cfg (mk_controls (num_cards c) (context c) false) srv)));
      reflexivity
     | cbn; intuition discriminate]).
Qed.

Lemma missing_configuration_aborts_witness :
  (exists shown,
      run Scenario.plain (mk_config None (Some "client") (Some "secret"))
          Scenario.pressed (Scenario.service Scenario.lofi_jazz Scenario.catalogue)
      = (Stopped,
         mk_session []
           (shown ++ [Error ("Missing environment variables: "
                             ++ join ", " ["GROQ_API_KEY"]
                             ++ ". Add them to your `.env` file.")])))
  /\ (true = true -> In "GROQ_API_KEY" ["GROQ_API_KEY"])
  /\ (false = true -> In "SPOTIFY_CLIENT_ID" ["GROQ_API_KEY"])
  /\ (false = true -> In "SPOTIFY_CLIENT_SECRET" ["GROQ_API_KEY"]).
Proof.
  apply (missing_configuration_aborts
           Scenario.plain (mk_config None (Some "client") (Some "secret"))
           Scenario.pressed (Scenario.service Scenario.lofi_jazz Scenario.catalogue));
    reflexivity.
Defined.

(** ** [extract_genres] *)

(** With a successful reply whose message content is [raw], the result of
    [extract_genres] is that of decoding [raw.strip()]. *)
Lemma extract_genres_content cfg reading_text srv h raw :
  replies_content srv h cfg reading_text raw ->
  extract_genres cfg reading_text srv h
  = (match Json.loads (strip raw) with
     | Some v => Ok v
     | None => Raise JSONDecodeError
     end, (h ++ [extraction_request cfg reading_text])%list).
Proof.
  intros (resp & body & Hs & Hst & Hb & Hc).
  unfold extract_genres, requests_post_json, bind, lift, ret, send.
  fold (extraction_request cfg reading_text).
  rewrite Hs, Hst, Hb, Hc. cbn [str_strip].
  now destruct (Json.loads (strip raw)).
Qed.

(** C4, as stated, fails in its second half: the content made of a vertical
    tab followed by a JSON array is not valid JSON ([json.loads] refuses it),
    yet [extract_genres] strips the tab and returns the list. *)
Lemma invalid_json_not_always_raised : ~ invalid_json_always_raises.
Proof.
  intros H.
  destruct (H Scenario.keys "A calm reading."
              (Scenario.service Scenario.tab_then_list Scenario.catalogue) []
              (String "011" (dq "['a']"))) as (h' & E).
  - eexists _, _. repeat split; vm_compute; reflexivity.
  - vm_compute. reflexivity.
  - vm_compute in E. discriminate.
Qed.

(** C4, amended.  For every reading text, when the content of the reply is
    the array of the strings a, b and c, [extract_genres] returns that list;
    and when the content without its leading and trailing white space
    ([str.strip]) is not valid JSON, [extract_genres] raises the parse
    failure and returns nothing. *)
Theorem extract_genres_parses_or_fails cfg reading_text srv h raw :
  replies_content srv h cfg reading_text raw ->
  (raw = dq "['a','b','c']" ->
   extract_genres cfg reading_text srv h
   = (Ok (JArr [JStr "a"; JStr "b"; JStr "c"]),
      (h ++ [extraction_request cfg reading_text])%list))
  /\ (Json.loads (strip raw) = None ->
      extract_genres cfg reading_text srv h
      = (Raise JSONDecodeError, (h ++ [extraction_request cfg reading_text])%list)).
Proof.
  intros Hr. rewrite (extract_genres_content _ _ _ _ _ Hr). split.
  - intros ->. vm_compute (Json.loads _). reflexivity.
  - intros ->. reflexivity.
Qed.

Lemma extract_genres_parses_or_fails_witness :
  (dq "['a','b','c']" = dq "['a','b','c']" ->
   extract_genres Scenario.keys "A calm reading."
                  (Scenario.service Scenario.abc Scenario.catalogue) []
   = (Ok (JArr [JStr "a"; JStr "b"; JStr "c"]),
      ([] ++ [extraction_request Scenario.keys "A calm reading."])%list))
  /\ (Json.loads (strip (dq "['a','b','c']")) = None ->
      extract_genres Scenario.keys "A calm reading."
                     (Scenario.service Scenario.abc Scenario.catalogue) []
      = (Raise JSONDecodeError,
         ([] ++ [extraction_request Scenario.keys "A calm reading."])%list)).
Proof.
  apply (extract_genres_parses_or_fails
           Scenario.keys "A calm reading."
           (Scenario.service Scenario.abc Scenario.catalogue) []
           (dq "['a','b','c']")).
  eexists _, _. repeat split; vm_compute; reflexivity.
Defined.




(** ** The four calls that check their reply *)

Lemma draw_tarot_cards_checked n srv h :
  draw_tarot_cards n srv h
  = (checked (srv h (draw_request n)) (fun body => getitem body "cards"),
     (h ++ [draw_request n])%list).
Proof.
  unfold draw_tarot_cards, requests_get, bind, lift, send, checked.
  fold (draw_request n).
  destruct (srv h (draw_request n)) as [resp|]; [|reflexivity]. cbn [rbind].
  destruct (raise_for_status resp); [|reflexivity].
  destruct (resp_json resp); reflexivity.
Qed.

Lemma get_tarot_reading_checked cfg cards context srv h :
  get_tarot_reading cfg cards context srv h
  = (checked (srv h (reading_request cfg cards context)) message_content,
     (h ++ [reading_request cfg cards context])%list).
Proof.
  unfold get_tarot_reading, requests_post_json, bind, lift, send, checked.
  fold (reading_request cfg cards context).
  destruct (srv h (reading_request cfg cards context)) as [resp|]; [|reflexivity].
  cbn [rbind].
  destruct (raise_for_status resp); [|reflexivity].
  destruct (resp_json resp); reflexivity.
Qed.

Lemma get_spotify_token_checked cfg srv h :
  get_spotify_token cfg srv h
  = (checked (srv h (token_request cfg)) (fun body => getitem body "access_token"),
     (h ++ [token_request cfg])%list).
Proof.
  unfold get_spotify_token, requests_post_form, bind, lift, send, checked.
  fold (token_request cfg).
  destruct (srv h (token_request cfg)) as [resp|]; [|reflexivity]. cbn [rbind].
  destruct (raise_for_status resp); [|reflexivity].
  destruct (resp_json resp); reflexivity.
Qed.

Lemma extract_genres_checked cfg reading_text srv h :
  extract_genres cfg reading_text srv h
  = (checked (srv h (extraction_request cfg reading_text))
       (fun body =>
          (content <- message_content body ;;
           raw <- str_strip content ;;
           match Json.loads raw with
           | Some v => Ok v
           | None => Raise JSONDecodeError
           end)%py),
     (h ++ [extraction_request cfg reading_text])%list).
Proof.
  unfold extract_genres, requests_post_json, bind, lift, ret, send, checked.
  fold (extraction_request cfg reading_text).
  destruct (srv h (extraction_request cfg reading_text)) as [resp|]; [|reflexivity].
  cbn [rbind].
  destruct (raise_for_status resp); [|reflexivity].
  destruct (resp_json resp) as [body|]; [|reflexivity]. cbn [rbind].
  destruct (message_content body) as [content|]; [|reflexivity]. cbn [rbind].
  destruct (str_strip content) as [raw|]; [|reflexivity]. cbn [rbind].
  destruct (Json.loads raw); reflexivity.
Qed.

(** X1.  No call is repeated: whatever the service replies, and whether the
    call returns or raises, each of the four checked calls leaves exactly one
    more request in the history, the one it is meant to send. *)
Theorem checked_calls_send_one_request :
  (forall n srv h, snd (draw_tarot_cards n srv h) = (h ++ [draw_request n])%list)
  /\ (forall cfg cards context srv h,
         snd (get_tarot_reading cfg cards context srv h)
         = (h ++ [reading_request cfg cards context])%list)
  /\ (forall cfg reading_text srv h,
         snd (extract_genres cfg reading_text srv h)
         = (h ++ [extraction_request cfg reading_text])%list)
  /\ (forall cfg srv h,
         snd (get_spotify_token cfg srv h) = (h ++ [token_request cfg])%list).
Proof.
  repeat split; intros.
  - now rewrite draw_tarot_cards_checked.
  - now rewrite get_tarot_reading_checked.
  - now rewrite extract_genres_checked.
  - now rewrite get_spotify_token_checked.
Qed.

Lemma checked_error_status resp k :
  400 <= status_code resp < 600 ->
  checked (Some resp) k = Raise (HTTPError (status_code resp)).
Proof. intros H. unfold checked. now rewrite (raise_for_status_error _ H). Qed.

(** X2.  The status is checked before the body is read: a reply with a
    status from 400 to 599 makes each of the four checked calls raise
    [HTTPError] with that status, whatever its body holds. *)
Theorem error_status_raises_whatever_the_body :
  (forall n srv h resp,
      srv h (draw_request n) = Some resp -> 400 <= status_code resp < 600 ->
      fst (draw_tarot_cards n srv h) = Raise (HTTPError (status_code resp)))
  /\ (forall cfg cards context srv h resp,
         srv h (reading_request cfg cards context) = Some resp ->
         400 <= status_code resp < 600 ->
         fst (get_tarot_reading cfg cards context srv h)
         = Raise (HTTPError (status_code resp)))
  /\ (forall cfg reading_text srv h resp,
         srv h (extraction_request cfg reading_text) = Some resp ->
         400 <= status_code resp < 600 ->
         fst (extract_genres cfg reading_text srv h)
         = Raise (HTTPError (status_code resp)))
  /\ (forall cfg srv h resp,
         srv h (token_request cfg) = Some resp -> 400 <= status_code resp < 600 ->
         fst (get_spotify_token cfg srv h) = Raise (HTTPError (status_code resp))).
Proof.
  repeat split; intros.
  - rewrite draw_tarot_cards_checked. cbn [fst]. rewrite H. now apply checked_error_status.
  - rewrite get_tarot_reading_checked. cbn [fst]. rewrite H. now apply checked_error_status.
  - rewrite extract_genres_checked. cbn [fst]. rewrite H. now apply checked_error_status.
  - rewrite get_spotify_token_checked. cbn [fst]. rewrite H. now apply checked_error_status.
Qed.

Lemma error_status_raises_whatever_the_body_witness :
  fst (get_spotify_token Scenario.keys
         (Scenario.override SPOTIFY_TOKEN_URL
            (mk_response 400 (dq "{'access_token': 'tok123'}"))
            (Scenario.service Scenario.lofi_jazz Scenario.catalogue)) [])
  = Raise (HTTPError
             (status_code (mk_response 400 (dq "{'access_token': 'tok123'}")))).
Proof.
  apply (proj2 (proj2 (proj2 error_status_raises_whatever_the_body))).
  - reflexivity.
  - cbn. lia.
Defined.

(** X3.  A chat reply that passes the status check and whose [choices] list
    is empty makes both chat calls raise [IndexError]: the first choice is
    read without a test. *)
Theorem empty_choices_raise_index_error :
  (forall cfg cards context srv h resp fields,
      srv h (reading_request cfg cards context) = Some resp ->
      raise_for_status resp = Ok tt ->
      resp_json resp = Ok (JObj fields) ->
      dict_lookup "choices" fields = Some (JArr []) ->
      fst (get_tarot_reading cfg cards context srv h) = Raise IndexError)
  /\ (forall cfg reading_text srv h resp fields,
         srv h (extraction_request cfg reading_text) = Some resp ->
         raise_for_status resp = Ok tt ->
         resp_json resp = Ok (JObj fields) ->
         dict_lookup "choices" fields = Some (JArr []) ->
         fst (extract_genres cfg reading_text srv h) = Raise IndexError).
Proof.
  split; intros * Hs Hst Hb Hc.
  - rewrite get_tarot_reading_checked. cbn [fst]. unfold checked.
    rewrite Hs, Hst, Hb. cbn [rbind]. unfold message_content, getitem.
    now rewrite Hc.
  - rewrite extract_genres_checked. cbn [fst]. unfold checked.
    rewrite Hs, Hst, Hb. cbn [rbind]. unfold message_content, getitem.
    now rewrite Hc.
Qed.

Lemma empty_choices_raise_index_error_witness :
  fst (extract_genres Scenario.keys "A calm reading."
         (Scenario.service Scenario.no_choices Scenario.catalogue) [])
  = Raise IndexError.
Proof.
  eapply (proj2 empty_choices_raise_index_error
            Scenario.keys "A calm reading."
            (Scenario.service Scenario.no_choices Scenario.catalogue) []).
  - reflexivity.
  - reflexivity.
  - vm_compute. reflexivity.
  - reflexivity.
Defined.

(** X4.  [extract_genres] calls [strip] on the message content without
    testing that it is a [str]: a content that is any other value ([null], a
    number, a list) raises [AttributeError], and nothing is decoded. *)
Theorem extract_genres_content_not_text cfg reading_text srv h resp body content :
  srv h (extraction_request cfg reading_text) = Some resp ->
  raise_for_status resp = Ok tt ->
  resp_json resp = Ok body ->
  message_content body = Ok content ->
  (forall s, content <> JStr s) ->
  extract_genres cfg reading_text srv h
  = (Raise AttributeError, (h ++ [extraction_request cfg reading_text])%list).
Proof.
  intros Hs Hst Hb Hc Hn. rewrite extract_genres_checked. unfold checked.
  rewrite Hs, Hst, Hb. cbn [rbind]. rewrite Hc. cbn [rbind].
  destruct content; try reflexivity. now destruct (Hn s).
Qed.

Lemma extract_genres_content_not_text_witness :
  extract_genres Scenario.keys "A calm reading."
    (Scenario.service Scenario.null_content Scenario.catalogue) []
  = (Raise AttributeError,
     ([] ++ [extraction_request Scenario.keys "A calm reading."])%list).
Proof.
  eapply (extract_genres_content_not_text
            Scenario.keys "A calm reading."
            (Scenario.service Scenario.null_content Scenario.catalogue) []).
  - reflexivity.
  - reflexivity.
  - vm_compute. reflexivity.
  - reflexivity.
  - discriminate.
Defined.

(** ** More on [search_tracks] *)

(** X5.  Searching a list of genres made of two parts is searching the
    first part, then the second from the history the first left: the tracks
    of the second part follow those of the first, and an exception in either
    part is the result of the whole, with no list. *)
Theorem search_tracks_app genres1 genres2 token limit srv h :
  search_tracks (genres1 ++ genres2) token limit srv h
  = match search_tracks genres1 token limit srv h with
    | (Ok tracks1, h1) =>
        match search_tracks genres2 token limit srv h1 with
        | (Ok tracks2, h2) => (Ok (tracks1 ++ tracks2)%list, h2)
        | (Raise e, h2) => (Raise e, h2)
        end
    | (Raise e, h1) => (Raise e, h1)
    end.
Proof.
  unfold search_tracks. rewrite search_loop_app.
  destruct (search_loop _ limit genres1 [] srv h) as [[tracks1|e] h1]; [|reflexivity].
  apply search_loop_acc.
Qed.

Lemma genre_items_sent token limit genre srv h r h1 :
  genre_items token limit genre srv h = (r, h1) ->
  h1 = (h ++ [search_request token ("genre:" ++ genre) limit])%list
  \/ h1 = (h ++ [search_request token ("genre:" ++ genre) limit;
                 search_request token genre limit])%list.
Proof.
  unfold genre_items, bind, lift, ret, send.
  destruct (srv h _) as [resp|]; [|intros [= _ <-]; now left].
  destruct (track_items resp) as [v|]; [|intros [= _ <-]; now left].
  destruct (truthy v).
  - destruct (py_iter v); intros [= _ <-]; now left.
  - rewrite <- app_assoc. cbn [app].
    destruct (srv _ (search_request token genre limit)) as [resp2|];
      [|intros [= _ <-]; now right].
    destruct (track_items resp2) as [v2|]; [|intros [= _ <-]; now right].
    destruct (py_iter v2); intros [= _ <-]; now right.
Qed.

Lemma search_loop_requests token limit srv genres :
  forall acc h r h',
    search_loop [("Authorization", "Bearer " ++ token)] limit genres acc srv h = (r, h') ->
    exists extra,
      h' = (h ++ extra)%list
      /\ (List.length extra <= 2 * List.length genres)%nat
      /\ Forall (search_for token limit genres) extra
      /\ (forall res, r = Ok res -> (List.length genres <= List.length extra)%nat).
Proof.
  induction genres as [|genre rest IH]; intros acc h r h' H.
  - cbn in H. injection H as <- <-. exists []. rewrite app_nil_r.
    repeat split; auto.
  - rewrite search_loop_cons in H.
    destruct (genre_items token limit genre srv h) as [ri h1] eqn:Hi.
    assert (Hme : forall rq,
               rq = search_request token ("genre:" ++ genre) limit
               \/ rq = search_request token genre limit ->
               search_for token limit (genre :: rest) rq).
    { intros rq Hrq. exists genre. split; [now left | exact Hrq]. }
    assert (Hfirst : exists mine,
               h1 = (h ++ mine)%list /\ (1 <= List.length mine <= 2)%nat
               /\ Forall (search_for token limit (genre :: rest)) mine).
    { apply genre_items_sent in Hi as [-> | ->]; eexists; (split; [reflexivity|]);
        (split; [cbn; lia|]); repeat constructor; apply Hme; auto. }
    destruct Hfirst as (mine & -> & Hlen & Hmine).
    assert (Hstop : forall e, (r, h') = (Raise e, (h ++ mine)%list) ->
               exists extra,
                 h' = (h ++ extra)%list
                 /\ (List.length extra <= 2 * List.length (genre :: rest))%nat
                 /\ Forall (search_for token limit (genre :: rest)) extra
                 /\ (forall res, r = Ok res ->
                                 (List.length (genre :: rest) <= List.length extra)%nat)).
    { intros e [= -> ->]. exists mine. repeat split; trivial; [cbn; lia | discriminate]. }
    destruct ri as [items|e]; [|symmetry in H; eauto].
    destruct (append_tracks genre items acc) as [acc'|e]; [|symmetry in H; eauto].
    apply IH in H as (extra & -> & Hle & Hall & Hok).
    exists (mine ++ extra)%list. rewrite app_assoc, length_app.
    split; [reflexivity|]. split; [cbn; lia|]. split.
    + apply Forall_app. split; [exact Hmine|].
      eapply Forall_impl; [|exact Hall].
      intros rq (g & Hg & Hrq). exists g. split; [now right | exact Hrq].
    + intros res Hres. specialize (Hok res Hres). cbn. lia.
Qed.

(** X6.  [search_tracks] sends nothing but searches for the genres it was
    given, after the requests already made: at most two per genre, and at
    least one per genre when it returns a list. *)
Theorem search_tracks_requests genres token limit srv h r h' :
  search_tracks genres token limit srv h = (r, h') ->
  exists extra,
    h' = (h ++ extra)%list
    /\ (List.length extra <= 2 * List.length genres)%nat
    /\ Forall (search_for token limit genres) extra
    /\ (forall res, r = Ok res -> (List.length genres <= List.length extra)%nat).
Proof. apply search_loop_requests. Qed.

Lemma search_tracks_requests_witness :
  exists extra,
    [search_request "tok123" "genre:lofi" 3; search_request "tok123" "lofi" 3;
     search_request "tok123" "genre:jazz" 3] = ([] ++ extra)%list
    /\ (List.length extra <= 2 * List.length ["lofi"; "jazz"])%nat
    /\ Forall (search_for "tok123" 3 ["lofi"; "jazz"]) extra
    /\ (forall res,
           Ok [mk_track (JStr "L1") (JStr "Low Tide") (JStr "Ana") "lofi"
                        (JStr "https://open.spotify.com/track/L1");
               mk_track (JStr "J1") (JStr "Blue Hour") (JStr "Ben") "jazz"
                        (JStr "https://open.spotify.com/track/J1")] = Ok res ->
           (List.length ["lofi"; "jazz"] <= List.length extra)%nat).
Proof.
  apply (search_tracks_requests ["lofi"; "jazz"] "tok123" 3
           (Scenario.service Scenario.lofi_jazz Scenario.catalogue) []).
  vm_compute. reflexivity.
Defined.

(** The turn of one genre, given the items the loop visits for it. *)
Lemma search_tracks_turn srv token limit before genre after h0 acc1 h1 items h2 group :
  search_tracks before token limit srv h0 = (Ok acc1, h1) ->
  genre_items token limit genre srv h1 = (Ok items, h2) ->
  entries_of genre items group ->
  search_tracks (before ++ genre :: after) token limit srv h0
  = match search_tracks after token limit srv h2 with
    | (Ok later, h') => (Ok (acc1 ++ group ++ later)%list, h')
    | (Raise x, h') => (Raise x, h')
    end.
Proof.
  unfold search_tracks. intros Hb Hi He.
  rewrite search_loop_app, Hb, search_loop_cons, Hi.
  rewrite (append_tracks_entries _ _ _ acc1 He), search_loop_acc.
  destruct (search_loop _ limit after [] srv h2) as [[later|x] h']; [|reflexivity].
  now rewrite <- app_assoc.
Qed.

(** X7.  When the filtered search for a genre returns at least one item,
    the search for the bare genre string is not made: the genre costs one
    request, and its tracks are the entries of the filtered reply. *)
Theorem search_tracks_filtered_first
        srv token limit before genre after h0 acc1 h1 resp t items group :
  search_tracks before token limit srv h0 = (Ok acc1, h1) ->
  srv h1 (search_request token ("genre:" ++ genre) limit) = Some resp ->
  track_items resp = Ok (JArr (t :: items)) ->
  entries_of genre (t :: items) group ->
  search_tracks (before ++ genre :: after) token limit srv h0
  = match search_tracks after token limit srv
            (h1 ++ [search_request token ("genre:" ++ genre) limit])%list with
    | (Ok later, h') => (Ok (acc1 ++ group ++ later)%list, h')
    | (Raise x, h') => (Raise x, h')
    end.
Proof.
  intros Hb Hs Hi He.
  apply (search_tracks_turn _ _ _ _ _ _ _ _ _ _ _ _ Hb
           (genre_items_filtered _ _ _ _ _ _ _ _ Hs Hi) He).
Qed.

Lemma search_tracks_filtered_first_witness :
  search_tracks ([] ++ "jazz" :: []) "tok123" 3
                (Scenario.service Scenario.lofi_jazz Scenario.catalogue) []
  = match search_tracks [] "tok123" 3
            (Scenario.service Scenario.lofi_jazz Scenario.catalogue)
            ([] ++ [search_request "tok123" ("genre:" ++ "jazz") 3])%list with
    | (Ok later, h') =>
        (Ok ([] ++ [mk_track (JStr "J1") (JStr "Blue Hour") (JStr "Ben") "jazz"
                             (JStr "https://open.spotify.com/track/J1")] ++ later)%list,
         h')
    | (Raise x, h') => (Raise x, h')
    end.
Proof.
  eapply (search_tracks_filtered_first
            (Scenario.service Scenario.lofi_jazz Scenario.catalogue)
            "tok123" 3 [] "jazz" [] [] [] []).
  - reflexivity.
  - reflexivity.
  - vm_compute. reflexivity.
  - repeat constructor.
Defined.

(** X8.  A genre for which both searches return an empty list adds nothing
    and raises nothing: the result is that of the other genres, and the two
    requests stay in the history. *)
Theorem search_tracks_unknown_genre_skipped
        srv token limit before genre after h0 acc1 h1 resp1 resp2 :
  search_tracks before token limit srv h0 = (Ok acc1, h1) ->
  srv h1 (search_request token ("genre:" ++ genre) limit) = Some resp1 ->
  track_items resp1 = Ok (JArr []) ->
  srv (h1 ++ [search_request token ("genre:" ++ genre) limit])%list
      (search_request token genre limit) = Some resp2 ->
  track_items resp2 = Ok (JArr []) ->
  search_tracks (before ++ genre :: after) token limit srv h0
  = match search_tracks after token limit srv
            (h1 ++ [search_request token ("genre:" ++ genre) limit;
                    search_request token genre limit])%list with
    | (Ok later, h') => (Ok (acc1 ++ later)%list, h')
    | (Raise x, h') => (Raise x, h')
    end.
Proof.
  intros Hb Hs1 Hi1 Hs2 Hi2.
  apply (search_tracks_turn _ _ _ _ _ after _ _ _ _ _ [] Hb
           (genre_items_fallback _ _ _ _ _ _ _ _ _ Hs1 Hi1 eq_refl Hs2 Hi2)).
  constructor.
Qed.

Lemma search_tracks_unknown_genre_skipped_witness :
  search_tracks ([] ++ "vaporwave" :: []) "tok123" 3
                (Scenario.service Scenario.lofi_jazz Scenario.silent) []
  = match search_tracks [] "tok123" 3
            (Scenario.service Scenario.lofi_jazz Scenario.silent)
            ([] ++ [search_request "tok123" ("genre:" ++ "vaporwave") 3;
                    search_request "tok123" "vaporwave" 3])%list with
    | (Ok later, h') => (Ok ([] ++ later)%list, h')
    | (Raise x, h') => (Raise x, h')
    end.
Proof.
  eapply (search_tracks_unknown_genre_skipped
            (Scenario.service Scenario.lofi_jazz Scenario.silent)
            "tok123" 3 [] "vaporwave" [] [] [] []).
  - reflexivity.
  - reflexivity.
  - vm_compute. reflexivity.
  - reflexivity.
  - vm_compute. reflexivity.
Defined.

Lemma track_items_text resp1 resp2 :
  text resp1 = text resp2 -> track_items resp1 = track_items resp2.
Proof. intros H. unfold track_items, resp_json. now rewrite H. Qed.

Lemma send_same_bodies srv1 srv2 rq h :
  same_bodies srv1 srv2 ->
  match send rq srv1 h, send rq srv2 h with
  | (Ok r1, h1), (Ok r2, h2) => text r1 = text r2 /\ h1 = h2
  | (Raise e1, h1), (Raise e2, h2) => e1 = e2 /\ h1 = h2
  | _, _ => False
  end.
Proof.
  intros H. specialize (H h rq). unfold send.
  destruct (srv1 h rq), (srv2 h rq); cbn in H; try discriminate; auto.
  injection H as H. auto.
Qed.

Lemma genre_items_same_bodies srv1 srv2 token limit genre h :
  same_bodies srv1 srv2 ->
  genre_items token limit genre srv1 h = genre_items token limit genre srv2 h.
Proof.
  intros H. unfold genre_items, bind, lift, ret.
  pose proof (send_same_bodies _ _ (search_request token ("genre:" ++ genre) limit) h H) as S1.
  destruct (send _ srv1 h) as [[r1|e1] h1], (send _ srv2 h) as [[r2|e2] h2];
    try contradiction; destruct S1 as [E <-]; [|now subst].
  rewrite (track_items_text _ _ E).
  destruct (track_items r2) as [v|]; [|reflexivity].
  destruct (truthy v); [reflexivity|].
  pose proof (send_same_bodies _ _ (search_request token genre limit) h1 H) as S2.
  destruct (send _ srv1 h1) as [[r3|e3] h3], (send _ srv2 h1) as [[r4|e4] h4];
    try contradiction; destruct S2 as [E2 <-]; [|now subst].
  now rewrite (track_items_text _ _ E2).
Qed.

(** X9.  [search_tracks] never looks at a status code: against two services
    whose replies have the same bodies it returns the same tracks, or raises
    the same exception, after the same requests. *)
Theorem search_tracks_blind_to_status srv1 srv2 genres token limit h :
  same_bodies srv1 srv2 ->
  search_tracks genres token limit srv1 h = search_tracks genres token limit srv2 h.
Proof.
  intros H. unfold search_tracks. generalize (@nil track) as acc. revert h.
  induction genres as [|genre rest IH]; intros h acc; [reflexivity|].
  rewrite !search_loop_cons, (genre_items_same_bodies _ _ _ _ _ _ H).
  destruct (genre_items token limit genre srv2 h) as [[items|e] h1]; [|reflexivity].
  destruct (append_tracks genre items acc); [apply IH | reflexivity].
Qed.

Lemma search_tracks_blind_to_status_witness :
  search_tracks ["lofi"; "jazz"] "tok123" 3
                (Scenario.service Scenario.lofi_jazz Scenario.unauthorized) []
  = search_tracks ["lofi"; "jazz"] "tok123" 3
                  (Scenario.service Scenario.lofi_jazz Scenario.error_body_ok) [].
Proof.
  apply (search_tracks_blind_to_status
           (Scenario.service Scenario.lofi_jazz Scenario.unauthorized)
           (Scenario.service Scenario.lofi_jazz Scenario.error_body_ok)).
  intros h rq. unfold Scenario.service.
  repeat match goal with
         | |- context [if ?c then _ else _] => destruct c
         end; reflexivity.
Defined.

(** ** More on the configuration check and on [build_prompt] *)

(** X10.  The names listed as missing are exactly those of the values that
    are unset or empty: an empty string counts as missing, and no other name
    is ever listed. *)
Theorem missing_keys_exact cfg name :
  In name (missing_keys cfg)
  <-> exists v,
      In (name, v) [("GROQ_API_KEY", GROQ_API_KEY cfg);
                    ("SPOTIFY_CLIENT_ID", SPOTIFY_CLIENT_ID cfg);
                    ("SPOTIFY_CLIENT_SECRET", SPOTIFY_CLIENT_SECRET cfg)]
      /\ (v = None \/ v = Some EmptyString).
Proof.
  assert (U : forall v, unset v = true <-> v = None \/ v = Some EmptyString).
  { intros [s|]; cbn.
    - rewrite String.eqb_eq. split; [intros ->; now right | intros [H|[= ->]]; easy].
    - split; auto. }
  unfold missing_keys. rewrite !in_app_iff. split.
  - intros [H|[H|H]];
      [destruct (unset (GROQ_API_KEY cfg)) eqn:E
      |destruct (unset (SPOTIFY_CLIENT_ID cfg)) eqn:E
      |destruct (unset (SPOTIFY_CLIENT_SECRET cfg)) eqn:E];
      try easy; destruct H as [<-|[]]; apply U in E; eexists; (split; [|exact E]);
      cbn; auto.
  - intros (v & Hin & Hv). apply U in Hv.
    destruct Hin as [[= <- <-]|[[= <- <-]|[[= <- <-]|[]]]]; rewrite Hv; cbn; auto.
Qed.

Lemma sapp_inv_head a x y : a ++ x = a ++ y -> x = y.
Proof. induction a as [|c a IH]; cbn; [trivial|]. intros [= H]. auto. Qed.

Lemma sapp_inv_tail t x y : x ++ t = y ++ t -> x = y.
Proof.
  intros H. apply (f_equal string_rev) in H. rewrite !string_rev_app in H.
  apply sapp_inv_head in H. apply (f_equal string_rev) in H.
  now rewrite !string_rev_involutive in H.
Qed.

(** X11.  For the same cards, two different context labels never give the
    same prompt. *)
Theorem build_prompt_context_injective cards context1 context2 :
  build_prompt cards context1 = build_prompt cards context2 -> context1 = context2.
Proof.
  unfold build_prompt. intros H.
  apply sapp_inv_head, sapp_inv_head, sapp_inv_head in H.
  now apply sapp_inv_tail in H.
Qed.

Lemma build_prompt_context_injective_witness : "Love" = "Love".
Proof.
  apply (build_prompt_context_injective ["The Fool"] "Love" "Love"). reflexivity.
Defined.

(** X12.  Card names are joined without quoting: a single card whose name
    holds a comma and a space gives the same prompt as the two cards named
    by its two halves. *)
Theorem build_prompt_does_not_delimit_names a b rest context :
  build_prompt ((a ++ ", " ++ b) :: rest) context
  = build_prompt (a :: b :: rest) context.
Proof.
  unfold build_prompt. do 2 f_equal.
  destruct rest as [|c rest]; cbn [join]; [reflexivity|].
  now rewrite !sapp_assoc.
Qed.

(** ** The script, step by step *)

Lemma after_bind {A B} (m : App A) (k : A -> App B) srv s Q :
  after m srv s
        (fun o s' =>
           match o with
           | Done a => after (k a) srv s' Q
           | Stopped => Q Stopped s'
           | Uncaught e => Q (Uncaught e) s'
           end) ->
  after (abind m k) srv s Q.
Proof.
  unfold after, abind. destruct (m srv s) as [[a| |e] s']; cbn [fst snd]; trivial.
Qed.

Lemma after_show w srv s (Q : outcome unit -> session -> Prop) :
  Q (Done tt) (mk_session (sent s) (page s ++ [w])) -> after (show w) srv s Q.
Proof. trivial. Qed.

Lemma after_ret {A} (a : A) srv s Q : Q (Done a) s -> after (aret a) srv s Q.
Proof. trivial. Qed.

Lemma after_stop {A} srv s (Q : outcome A -> session -> Prop) :
  Q Stopped s -> after st_stop srv s Q.
Proof. trivial. Qed.

Lemma after_eval {A} (r : result A) srv s Q :
  (forall a, r = Ok a -> Q (Done a) s) ->
  (forall e, r = Raise e -> Q (Uncaught e) s) ->
  after (eval r) srv s Q.
Proof. unfold after, eval. destruct r; cbn; auto. Qed.

Lemma after_try {A} (body : Net A) handler srv s Q :
  (forall a h, body srv (sent s) = (Ok a, h) -> Q (Done a) (mk_session h (page s))) ->
  (forall e h, body srv (sent s) = (Raise e, h) ->
               after (handler e) srv (mk_session h (page s)) Q) ->
  after (try_except body handler) srv s Q.
Proof.
  unfold after, try_except. destruct (body srv (sent s)) as [[a|e] h]; cbn; auto.
Qed.

Lemma after_report {A} R stage e srv s (Q : outcome A -> session -> Prop) :
  Q Stopped (mk_session (sent s) (page s ++ [Error (stage ++ ": " ++ exc_str R e)])) ->
  after (report R stage e) srv s Q.
Proof. trivial. Qed.

Lemma after_quiet {A} (m : App A) srv s Q :
  quiet m ->
  (forall o ws, no_error ws -> o <> Stopped ->
                Q o (mk_session (sent s) (page s ++ ws))) ->
  after m srv s Q.
Proof.
  intros Hq H. unfold after. destruct (Hq srv s) as (ws & -> & Hn & Ho). auto.
Qed.

Lemma quiet_ret {A} (a : A) : quiet (aret a).
Proof.
  intros srv s. exists []. cbn. rewrite app_nil_r. destruct s.
  repeat split; [constructor | discriminate].
Qed.

Lemma quiet_eval {A} (r : result A) : quiet (eval r).
Proof.
  intros srv s. exists []. unfold eval. rewrite app_nil_r.
  destruct r, s; cbn; repeat split; try constructor; discriminate.
Qed.

Lemma quiet_show w : is_error w = false -> quiet (show w).
Proof.
  intros H srv s. exists [w]. cbn. repeat split; [now repeat constructor | discriminate].
Qed.

Lemma quiet_bind {A B} (m : App A) (k : A -> App B) :
  quiet m -> (forall a, quiet (k a)) -> quiet (abind m k).
Proof.
  intros Hm Hk srv s. unfold abind.
  destruct (Hm srv s) as (ws & E & Hn & Ho).
  destruct (m srv s) as [[a| |e] s']; cbn [fst snd] in *; subst s'.
  - destruct (Hk a srv (mk_session (sent s) (page s ++ ws))) as (ws' & E' & Hn' & Ho').
    exists (ws ++ ws')%list. rewrite E'. cbn [sent page]. rewrite app_assoc.
    repeat split; trivial. now apply Forall_app.
  - now destruct Ho.
  - exists ws. repeat split; trivial. discriminate.
Qed.

Lemma quiet_for_each {A} (body : A -> App unit) l :
  (forall x, quiet (body x)) -> quiet (for_each body l).
Proof.
  intros H. induction l as [|x l IH]; cbn [for_each].
  - apply quiet_ret.
  - apply quiet_bind; auto.
Qed.

Lemma quiet_show_card R n ic : quiet (show_card R n ic).
Proof.
  destruct ic as [i card]. unfold show_card.
  repeat first [ apply quiet_bind; [|intros ?]
               | apply quiet_eval
               | apply quiet_show; reflexivity
               | apply quiet_ret ].
  destruct (Z.of_nat i <? n); [apply quiet_ret | apply quiet_eval].
Qed.

Lemma quiet_show_track R t : quiet (show_track R t).
Proof.
  unfold show_track. apply quiet_bind; [|intros ?]; apply quiet_show; reflexivity.
Qed.

(** The requests of the three stages whose [try] holds more than one call. *)
Lemma reading_stage_sent cfg card_names context srv h r h' :
  (names <- lift (all_str card_names) ;;
   get_tarot_reading cfg names context)%net srv h = (r, h') ->
  (h' = h /\ exists e, r = Raise e)
  \/ exists names, h' = (h ++ [reading_request cfg names context])%list.
Proof.
  unfold bind, lift. destruct (all_str card_names) as [names|e].
  - rewrite get_tarot_reading_checked. intros [= _ <-]. right. eauto.
  - intros [= <- <-]. left. eauto.
Qed.

Lemma extraction_stage_sent cfg reading srv h r h' :
  (reading_text <- lift (as_str reading) ;;
   extract_genres cfg reading_text)%net srv h = (r, h') ->
  (h' = h /\ exists e, r = Raise e)
  \/ exists reading_text, h' = (h ++ [extraction_request cfg reading_text])%list.
Proof.
  unfold bind, lift. destruct (as_str reading) as [reading_text|e].
  - rewrite extract_genres_checked. intros [= _ <-]. right. eauto.
  - intros [= <- <-]. left. eauto.
Qed.

Lemma search_for_url token limit genres rq :
  search_for token limit genres rq -> url rq = SPOTIFY_SEARCH_URL.
Proof. intros (g & _ & [-> | ->]); reflexivity. Qed.

Lemma spotify_stage_sent R cfg genres srv h r h' :
  (token <- get_spotify_token cfg ;;
   search_tracks genres (format R token) default_limit)%net srv h = (r, h') ->
  exists searches,
    h' = (h ++ token_request cfg :: searches)%list
    /\ Forall (fun rq => url rq = SPOTIFY_SEARCH_URL) searches
    /\ forall tracks, r = Ok tracks ->
         exists token h0,
           search_tracks genres token default_limit srv h0 = (Ok tracks, h').
Proof.
  unfold bind. rewrite get_spotify_token_checked.
  destruct (checked _ _) as [token|e].
  - intros H. pose proof H as H0.
    apply search_loop_requests in H as (extra & -> & _ & Hall & _).
    exists extra. rewrite <- app_assoc. split; [reflexivity|]. split.
    + eapply Forall_impl; [|exact Hall]. intros rq. apply search_for_url.
    + intros tracks ->. rewrite <- app_assoc in H0. eauto.
  - intros [= <- <-]. exists []. split; [reflexivity|]. split; [constructor|].
    discriminate.
Qed.

Lemma show_tracks_exact R tracks srv s :
  for_each (show_track R) tracks srv s
  = (Done tt, mk_session (sent s) (page s ++ flat_map (track_widgets R) tracks)).
Proof.
  revert s. induction tracks as [|t tracks IH]; intros s; cbn [for_each flat_map].
  - rewrite app_nil_r. now destruct s.
  - unfold abind at 1. unfold show_track at 1. unfold abind, show. cbn [fst snd].
    rewrite IH. cbn [sent page]. unfold track_widgets, show_track, abind, show.
    cbn [fst snd sent page app]. now rewrite <- !app_assoc.
Qed.

Lemma no_error_track_widgets R tracks : no_error (flat_map (track_widgets R) tracks).
Proof.
  induction tracks as [|t tracks IH]; [constructor|].
  cbn [flat_map]. apply Forall_app. split; [|exact IH]. repeat constructor.
Qed.

Ltac step :=
  first [ apply after_bind; apply after_show
        | apply after_bind ];
  cbv beta iota; cbn [sent page].

Ltac no_err :=
  repeat first [ assumption
               | apply Forall_nil
               | apply Forall_cons; [reflexivity|]
               | apply Forall_app; split ].

Ltac fin :=
  repeat split;
  try (cbn [sent firstn stage_calls app]; reflexivity);
  try lia; try congruence; try easy;
  try (cbn [page]; unfold no_error; no_err).

(** The error widget of a stage, after widgets that hold no error. *)
Ltac stopped_at i :=
  eexists _, _; cbn [page]; split; [reflexivity|]; split; [unfold no_error; no_err|];
  right; eexists i, _, _; cbn [nth_error stage_names];
  split; [reflexivity|]; split; [reflexivity|]; lia.

Lemma run_has_shape R cfg c srv :
  after (script R cfg c) srv (mk_session [] []) (run_shape R cfg c srv).
Proof.
  unfold script.
  do 10 step.
  destruct (clicked c) eqn:Hc.
  2:{ apply after_ret. exists 0%nat, [], EmptyString, []. fin. }
  unfold main_block. step.
  destruct (missing_keys cfg) as [|k0 ks] eqn:Hm.
  2:{ step. apply after_stop. exists 0%nat, [], EmptyString, []. fin.
      eexists _, _. cbn [page]. split; [reflexivity|]. split; [unfold no_error; no_err|].
      left. split; [reflexivity | now rewrite Hm]. }
  apply after_ret. cbv beta iota. step. step.
  (* the draw *)
  apply after_try; [intros drawn h1 Hd | intros e h1 Hd];
    rewrite draw_tarot_cards_checked in Hd; injection Hd as Hd <-; cbn [app].
  2:{ apply after_report. exists 1%nat, [], EmptyString, []. fin. stopped_at 0%nat. }
  cbv beta iota. step.
  apply after_eval; [intros cards Hcards | intros e _].
  2:{ exists 1%nat, [], EmptyString, []. fin. }
  step.
  apply after_eval; [intros card_names Hnames | intros e _].
  2:{ exists 1%nat, [], EmptyString, []. fin. }
  step. step.
  destruct (0 <? num_cards c).
  2:{ apply after_eval; [discriminate | intros e _].
      exists 1%nat, [], EmptyString, []. fin. }
  apply after_show. cbv beta iota. cbn [sent page]. step.
  apply after_quiet; [apply quiet_for_each; intros; apply quiet_show_card|].
  intros o ws Hws Ho. cbn [sent page].
  destruct o as [[]| |e]; [|easy|exists 1%nat, [], EmptyString, []; fin].
  step.
  (* the reading *)
  step.
  apply after_try; [intros reading h2 Hr | intros e h2 Hr];
    apply reading_stage_sent in Hr as [[-> (e' & He')]|(names & ->)];
    try discriminate He'; cbn [app].
  2:{ apply after_report. exists 1%nat, [], EmptyString, []. fin. stopped_at 1%nat. }
  2:{ apply after_report. exists 2%nat, names, EmptyString, []. fin. stopped_at 1%nat. }
  cbv beta iota. do 4 step.
  (* the extraction *)
  apply after_try; [intros genres h3 Hx | intros e h3 Hx];
    apply extraction_stage_sent in Hx as [[-> (e' & He')]|(reading_text & ->)];
    try discriminate He'; cbn [app].
  2:{ apply after_report. exists 2%nat, names, EmptyString, []. fin. stopped_at 2%nat. }
  2:{ apply after_report. exists 3%nat, names, reading_text, []. fin. stopped_at 2%nat. }
  cbv beta iota. step. step.
  apply after_eval; [intros genre_list Hg | intros e _].
  2:{ exists 3%nat, names, reading_text, []. fin. }
  do 3 step.
  (* the token and the searches *)
  apply after_try; [intros tracks h4 Hs | intros e h4 Hs];
    apply spotify_stage_sent in Hs as (searches & -> & Hall & Hres); cbn [app].
  2:{ apply after_report. exists 4%nat, names, reading_text, searches. fin.
      stopped_at 3%nat. }
  cbv beta iota.
  destruct (Hres tracks eq_refl) as (token & h0 & Hsearch).
  destruct tracks as [|t tracks].
  - apply after_show. exists 4%nat, names, reading_text, searches. fin.
    eexists _, [], genre_list, token, h0. cbn [page sent final_widgets].
    split; [reflexivity | exact Hsearch].
  - step. unfold after. rewrite show_tracks_exact. cbn [fst snd sent page].
    exists 4%nat, names, reading_text, searches. fin.
    + apply no_error_track_widgets.
    + eexists _, (t :: tracks), genre_list, token, h0. cbn [final_widgets].
      split; [|exact Hsearch]. now rewrite <- app_assoc.
Qed.

(** ** The runs of the script *)

Lemma run_shaped R cfg c srv :
  run_shape R cfg c srv (fst (run R cfg c srv)) (snd (run R cfg c srv)).
Proof. exact (run_has_shape R cfg c srv). Qed.

Lemma no_error_existsb ws : no_error ws <-> existsb is_error ws = false.
Proof.
  unfold no_error. induction ws as [|w ws IH]; cbn.
  - split; [reflexivity | constructor].
  - rewrite orb_false_iff, <- IH. split.
    + intros H. inversion H; subst. auto.
    + intros [H1 H2]. now constructor.
Qed.

(** X13.  A request is sent only when the button was pressed and none of
    the three keys is missing, and the first request of a run is always the
    draw of the number of cards chosen. *)
Theorem requests_need_click_and_keys R cfg c srv :
  sent (snd (run R cfg c srv)) <> [] ->
  clicked c = true
  /\ missing_keys cfg = []
  /\ hd_error (sent (snd (run R cfg c srv))) = Some (draw_request (num_cards c)).
Proof.
  destruct (run_shaped R cfg c srv)
    as (k & names & text & searches & -> & Hk & Hs & _ & Hck & _).
  intros Hne. destruct k as [|k].
  - cbn in Hne. destruct searches; [easy|]. now specialize (Hs ltac:(discriminate)).
  - destruct Hck as [Hc Hm]; [discriminate|]. repeat split; trivial.
Qed.

Lemma requests_need_click_and_keys_witness :
  clicked Scenario.pressed = true
  /\ missing_keys Scenario.keys = []
  /\ hd_error (sent (snd (run Scenario.plain Scenario.keys Scenario.pressed
                              (Scenario.service Scenario.lofi_jazz Scenario.catalogue))))
     = Some (draw_request (num_cards Scenario.pressed)).
Proof.
  apply (requests_need_click_and_keys Scenario.plain Scenario.keys Scenario.pressed
           (Scenario.service Scenario.lofi_jazz Scenario.catalogue)).
  vm_compute. discriminate.
Defined.

(** X14.  The calls of a run are made in the order of the stages: the
    requests sent are a prefix of draw, reading, extraction, token, followed
    by track searches only when all four were made.  No stage is called
    before the one that precedes it. *)
Theorem run_call_order R cfg c srv :
  exists k names reading_text searches,
    sent (snd (run R cfg c srv))
    = (firstn k (stage_calls cfg c names reading_text) ++ searches)%list
    /\ (k <= 4)%nat
    /\ (searches <> [] -> k = 4%nat)
    /\ Forall (fun rq => url rq = SPOTIFY_SEARCH_URL) searches.
Proof.
  destruct (run_shaped R cfg c srv)
    as (k & names & text & searches & E & Hk & Hs & Hall & _).
  exists k, names, text, searches. auto.
Qed.

(** X15.  A run is stopped exactly when it shows an error: a stopped run
    ends with its only error widget, and a run that completes or is left by
    an exception shows none. *)
Theorem stopped_iff_error_shown R cfg c srv :
  (fst (run R cfg c srv) = Stopped
   <-> existsb is_error (page (snd (run R cfg c srv))) = true)
  /\ (fst (run R cfg c srv) = Stopped ->
      exists shown msg,
        page (snd (run R cfg c srv)) = (shown ++ [Error msg])%list
        /\ existsb is_error shown = false).
Proof.
  destruct (run_shaped R cfg c srv) as (k & names & text & searches & _ & _ & _ & _ & _ & H).
  destruct (fst (run R cfg c srv)) as [[]| |e].
  - destruct H as [H _]. apply no_error_existsb in H. rewrite H.
    split; [split|]; discriminate.
  - destruct H as (shown & msg & -> & Hn & _). split.
    + split; [|reflexivity]. intros _. rewrite existsb_app. cbn. apply orb_true_r.
    + intros _. exists shown, msg. split; [reflexivity|]. now apply no_error_existsb.
  - apply no_error_existsb in H. rewrite H. split; [split|]; discriminate.
Qed.

(** X16.  Every error reported names where the run failed.  With no
    request sent it is the list of the missing keys.  Otherwise it is the
    message of one of the four stages, in their order, followed by the
    exception: stage number [i] (from 0) is named only after at least [i]
    requests, and the first three only after at most [i + 1]. *)
Theorem reported_error_names_stage R cfg c srv :
  fst (run R cfg c srv) = Stopped ->
  exists shown msg,
    page (snd (run R cfg c srv)) = (shown ++ [Error msg])%list
    /\ (sent (snd (run R cfg c srv)) = []
        /\ msg = "Missing environment variables: " ++ join ", " (missing_keys cfg)
                 ++ ". Add them to your `.env` file."
        \/ exists i stage e,
            nth_error stage_names i = Some stage
            /\ msg = stage ++ ": " ++ exc_str R e
            /\ (1 <= List.length (sent (snd (run R cfg c srv))))%nat
            /\ (i <= List.length (sent (snd (run R cfg c srv))))%nat
            /\ (i < 3 -> List.length (sent (snd (run R cfg c srv))) <= i + 1)%nat).
Proof.
  destruct (run_shaped R cfg c srv)
    as (k & names & text & searches & -> & Hk & Hs & _ & _ & H).
  intros Ho. rewrite Ho in H.
  destruct H as (shown & msg & -> & _ & [[-> ->]|(i & stage & e & Hi & -> & Hik & H1)]).
  - exists shown. eexists. split; [reflexivity|]. left.
    destruct searches; [easy|]. now specialize (Hs ltac:(discriminate)).
  - exists shown. eexists. split; [reflexivity|]. right.
    exists i, stage, e. split; [exact Hi|]. split; [reflexivity|].
    assert (Hlen : List.length (firstn k (stage_calls cfg c names text)) = k).
    { rewrite length_firstn. cbn. lia. }
    rewrite length_app, Hlen. repeat split; try lia.
    intros Hi3. destruct searches; [cbn; lia|].
    specialize (Hs ltac:(discriminate)). lia.
Qed.

Lemma reported_error_names_stage_witness :
  exists shown msg,
    page (snd (run Scenario.plain Scenario.keys Scenario.pressed
                   (Scenario.service Scenario.lofi_jazz Scenario.no_artist)))
    = (shown ++ [Error msg])%list
    /\ (sent (snd (run Scenario.plain Scenario.keys Scenario.pressed
                       (Scenario.service Scenario.lofi_jazz Scenario.no_artist))) = []
        /\ msg = "Missing environment variables: "
                 ++ join ", " (missing_keys Scenario.keys)
                 ++ ". Add them to your `.env` file."
        \/ exists i stage e,
            nth_error stage_names i = Some stage
            /\ msg = stage ++ ": " ++ exc_str Scenario.plain e
            /\ (1 <= List.length
                       (sent (snd (run Scenario.plain Scenario.keys Scenario.pressed
                                       (Scenario.service Scenario.lofi_jazz
                                                         Scenario.no_artist)))))%nat
            /\ (i <= List.length
                       (sent (snd (run Scenario.plain Scenario.keys Scenario.pressed
                                       (Scenario.service Scenario.lofi_jazz
                                                         Scenario.no_artist)))))%nat
            /\ (i < 3 ->
                List.length
                  (sent (snd (run Scenario.plain Scenario.keys Scenario.pressed
                                  (Scenario.service Scenario.lofi_jazz
                                                    Scenario.no_artist)))) <= i + 1)%nat).
Proof.
  apply (reported_error_names_stage Scenario.plain Scenario.keys Scenario.pressed
           (Scenario.service Scenario.lofi_jazz Scenario.no_artist)).
  vm_compute. reflexivity.
Defined.



(** ** The display of the cards *)

Lemma names_of_complete cards :
  Forall complete_card cards -> exists names, names_of cards = Ok names.
Proof.
  induction 1 as [|card cards (short & name & up & rev & _ & Hn & _) _ (names & IH)].
  - now exists [].
  - cbn. rewrite Hn, IH. cbn. eauto.
Qed.

Lemma show_card_complete R n i card srv s :
  complete_card card ->
  exists ws,
    List.length ws = 3%nat /\ no_error ws
    /\ show_card R n (i, card) srv s
       = if Z.of_nat i <? n
         then (Done tt, mk_session (sent s) (page s ++ ws))
         else (Uncaught IndexError, s).
Proof.
  intros (short & name & up & rev & Hs & Hn & Hu & Hr).
  unfold show_card. rewrite Hs, Hn, Hu, Hr.
  destruct (Z.of_nat i <? n); unfold abind, aret, eval, show; cbn [fst snd sent page].
  - rewrite <- !app_assoc. cbn [app].
    match goal with |- context [(page s ++ ?l)%list] => exists l end.
    split; [reflexivity|]. split; [repeat constructor | reflexivity].
  - exists [Title EmptyString; Title EmptyString; Title EmptyString].
    repeat split; repeat constructor.
Qed.

(** The loop over the cards, from column [i]: the cards that have a column
    are shown, three widgets each, and the first card without one raises. *)
Lemma show_cards_bounds R n cards :
  Forall complete_card cards ->
  forall i srv s,
    Z.of_nat i <= n ->
    exists ws,
      snd (for_each (show_card R n) (enumerate_from i cards) srv s)
      = mk_session (sent s) (page s ++ ws)
      /\ no_error ws
      /\ List.length ws = (3 * Nat.min (List.length cards) (Z.to_nat n - i))%nat
      /\ fst (for_each (show_card R n) (enumerate_from i cards) srv s)
         = if Z.of_nat (i + List.length cards) <=? n
           then Done tt else Uncaught IndexError.
Proof.
  induction 1 as [|card cards Hc _ IH]; intros i srv s Hi.
  - exists []. cbn. rewrite app_nil_r, Nat.add_0_r.
    destruct s as [hs ps]. repeat split; [constructor|].
    now rewrite (proj2 (Z.leb_le _ _) Hi).
  - cbn [enumerate_from for_each]. unfold abind at 1 2.
    destruct (show_card_complete R n i card srv s Hc) as (ws1 & Hl1 & Hn1 & ->).
    destruct (Z.ltb_spec (Z.of_nat i) n) as [Hlt|Hge].
    + destruct (IH (S i) srv (mk_session (sent s) (page s ++ ws1)))
        as (ws & E & Hn & Hl & Ho); [lia|].
      exists (ws1 ++ ws)%list.
      destruct (for_each _ _ srv _) as [o s']. cbn [fst snd] in *. subst s' o.
      cbn [sent page]. rewrite app_assoc, length_app, Hl1, Hl. cbn [List.length].
      repeat split.
      * now apply Forall_app.
      * lia.
      * replace (S i + List.length cards)%nat with (i + S (List.length cards))%nat by lia.
        reflexivity.
    + exists []. cbn [fst snd]. rewrite app_nil_r.
      destruct s as [hs ps]. cbn [sent page List.length]. repeat split; [constructor|lia|].
      destruct (Z.leb_spec (Z.of_nat (i + S (List.length cards))) n); [lia | reflexivity].
Qed.

(** X18.  The columns are as many as the slider asked, not as many as the
    cards drawn: when the card service returns more cards than that, the
    cards that have a column are shown, three widgets each, and the next one
    leaves the run with an [IndexError] that no stage reports.  Only the
    draw was requested. *)
Theorem more_cards_than_columns R cfg c srv drawn h1 cards :
  clicked c = true ->
  missing_keys cfg = [] ->
  draw_tarot_cards (num_cards c) srv [] = (Ok drawn, h1) ->
  py_iter drawn = Ok cards ->
  Forall complete_card cards ->
  0 < num_cards c < Z.of_nat (List.length cards) ->
  fst (run R cfg c srv) = Uncaught IndexError
  /\ sent (snd (run R cfg c srv)) = [draw_request (num_cards c)]
  /\ exists shown ws,
      page (snd (run R cfg c srv)) = (shown ++ Columns (num_cards c) :: ws)%list
      /\ List.length ws = (3 * Z.to_nat (num_cards c))%nat
      /\ no_error (shown ++ Columns (num_cards c) :: ws).
Proof.
  intros Hc Hm Hd Hcards Hall Hn.
  change (after (script R cfg c) srv (mk_session [] [])
            (fun o s =>
               o = Uncaught IndexError
               /\ sent s = [draw_request (num_cards c)]
               /\ exists shown ws,
                   page s = (shown ++ Columns (num_cards c) :: ws)%list
                   /\ List.length ws = (3 * Z.to_nat (num_cards c))%nat
                   /\ no_error (shown ++ Columns (num_cards c) :: ws))).
  unfold script. do 10 step. rewrite Hc. unfold main_block. step. rewrite Hm.
  apply after_ret. cbv beta iota. step. step.
  pose proof Hd as Hd'. rewrite draw_tarot_cards_checked in Hd'.
  injection Hd' as _ <-. cbn [app] in Hd.
  apply after_try; cbn [sent page]; intros a h H; rewrite Hd in H; [|discriminate].
  injection H as <- <-. cbv beta iota. step.
  apply after_eval; intros a H; rewrite Hcards in H; [|discriminate].
  injection H as <-. step.
  destruct (names_of_complete _ Hall) as (names & Hnames).
  apply after_eval; intros a H; rewrite Hnames in H; [|discriminate].
  injection H as <-. step. step.
  rewrite (proj2 (Z.ltb_lt 0 (num_cards c))) by lia.
  apply after_show. cbv beta iota. cbn [sent page]. apply after_bind. unfold after.
  match goal with
  | |- context [for_each _ _ srv ?s] =>
      destruct (show_cards_bounds R (num_cards c) cards Hall 0%nat srv s)
        as (ws & E & Hws & Hl & Ho); [lia|]
  end.
  rewrite E, Ho.
  destruct (Z.leb_spec (Z.of_nat (0 + List.length cards)) (num_cards c)); [lia|].
  cbn [sent page]. split; [reflexivity|]. split; [reflexivity|].
  eexists _, ws. split; [now rewrite <- app_assoc|]. split; [rewrite Hl; lia|].
  unfold no_error. no_err.
Qed.

Lemma more_cards_than_columns_witness :
  fst (run Scenario.plain Scenario.keys (mk_controls 1 "Love" true)
           (Scenario.service Scenario.lofi_jazz Scenario.catalogue))
  = Uncaught IndexError
  /\ sent (snd (run Scenario.plain Scenario.keys (mk_controls 1 "Love" true)
                    (Scenario.service Scenario.lofi_jazz Scenario.catalogue)))
     = [draw_request (num_cards (mk_controls 1 "Love" true))]
  /\ exists shown ws,
      page (snd (run Scenario.plain Scenario.keys (mk_controls 1 "Love" true)
                     (Scenario.service Scenario.lofi_jazz Scenario.catalogue)))
      = (shown ++ Columns (num_cards (mk_controls 1 "Love" true)) :: ws)%list
      /\ List.length ws = (3 * Z.to_nat (num_cards (mk_controls 1 "Love" true)))%nat
      /\ no_error (shown ++ Columns (num_cards (mk_controls 1 "Love" true)) :: ws).
Proof.
  eapply (more_cards_than_columns Scenario.plain Scenario.keys
            (mk_controls 1 "Love" true)
            (Scenario.service Scenario.lofi_jazz Scenario.catalogue)).
  - reflexivity.
  - reflexivity.
  - vm_compute. reflexivity.
  - reflexivity.
  - repeat constructor; eexists _, _, _, _; repeat split; reflexivity.
  - cbn. lia.
Defined.

(** X19.  The names of the cards are read outside any [try]: when a drawn
    card has no [name] (or the cards are not objects at all), the exception
    leaves the run unreported, with no error widget and after the one
    request of the draw. *)
Theorem card_names_read_outside_try R cfg c srv drawn h1 cards e :
  clicked c = true ->
  missing_keys cfg = [] ->
  draw_tarot_cards (num_cards c) srv [] = (Ok drawn, h1) ->
  py_iter drawn = Ok cards ->
  names_of cards = Raise e ->
  fst (run R cfg c srv) = Uncaught e
  /\ sent (snd (run R cfg c srv)) = [draw_request (num_cards c)]
  /\ no_error (page (snd (run R cfg c srv))).
Proof.
  intros Hc Hm Hd Hcards Hnames.
  change (after (script R cfg c) srv (mk_session [] [])
            (fun o s =>
               o = Uncaught e /\ sent s = [draw_request (num_cards c)]
               /\ no_error (page s))).
  unfold script. do 10 step. rewrite Hc. unfold main_block. step. rewrite Hm.
  apply after_ret. cbv beta iota. step. step.
  pose proof Hd as Hd'. rewrite draw_tarot_cards_checked in Hd'.
  injection Hd' as _ <-. cbn [app] in Hd.
  apply after_try; cbn [sent page]; intros a h H; rewrite Hd in H; [|discriminate].
  injection H as <- <-. cbv beta iota. step.
  apply after_eval; intros a H; rewrite Hcards in H; [|discriminate].
  injection H as <-. step.
  apply after_eval; intros a H; rewrite Hnames in H; [discriminate|].
  injection H as <-. cbn [sent page]. repeat split. unfold no_error. no_err.
Qed.

Lemma card_names_read_outside_try_witness :
  fst (run Scenario.plain Scenario.keys Scenario.pressed
           (Scenario.override (TAROT_API_URL ++ "/cards/random")
              Scenario.nameless_cards
              (Scenario.service Scenario.lofi_jazz Scenario.catalogue)))
  = Uncaught (KeyError (JStr "name"))
  /\ sent (snd (run Scenario.plain Scenario.keys Scenario.pressed
                    (Scenario.override (TAROT_API_URL ++ "/cards/random")
                       Scenario.nameless_cards
                       (Scenario.service Scenario.lofi_jazz Scenario.catalogue))))
     = [draw_request (num_cards Scenario.pressed)]
  /\ no_error
       (page (snd (run Scenario.plain Scenario.keys Scenario.pressed
                       (Scenario.override (TAROT_API_URL ++ "/cards/random")
                          Scenario.nameless_cards
                          (Scenario.service Scenario.lofi_jazz Scenario.catalogue))))).
Proof.
  eapply (card_names_read_outside_try Scenario.plain Scenario.keys Scenario.pressed
            (Scenario.override (TAROT_API_URL ++ "/cards/random")
               Scenario.nameless_cards
               (Scenario.service Scenario.lofi_jazz Scenario.catalogue))).
  - reflexivity.
  - reflexivity.
  - vm_compute. reflexivity.
  - reflexivity.
  - reflexivity.
Defined.

(** X20.  What [extract_genres] returns is joined without a test, outside
    any [try]: when it is valid JSON but not a sequence of strings, the
    exception of the join leaves the run unreported, after the extraction and
    before any request to the music service. *)
Theorem unvalidated_genres_leave_run
        R cfg c srv drawn h1 cards card_names names reading_text h2 genres h3 e :
  clicked c = true ->
  missing_keys cfg = [] ->
  draw_tarot_cards (num_cards c) srv [] = (Ok drawn, h1) ->
  py_iter drawn = Ok cards ->
  Forall complete_card cards ->
  0 < num_cards c ->
  Z.of_nat (List.length cards) <= num_cards c ->
  names_of cards = Ok card_names ->
  all_str card_names = Ok names ->
  get_tarot_reading cfg names (context c) srv h1 = (Ok (JStr reading_text), h2) ->
  extract_genres cfg reading_text srv h2 = (Ok genres, h3) ->
  str_items genres = Raise e ->
  fst (run R cfg c srv) = Uncaught e
  /\ sent (snd (run R cfg c srv))
     = [draw_request (num_cards c); reading_request cfg names (context c);
        extraction_request cfg reading_text]
  /\ no_error (page (snd (run R cfg c srv))).
Proof.
  intros Hc Hm Hd Hcards Hall Hn Hcount Hnames Hstr Hread Hex Hbad.
  change (after (script R cfg c) srv (mk_session [] [])
            (fun o s =>
               o = Uncaught e
               /\ sent s = [draw_request (num_cards c);
                            reading_request cfg names (context c);
                            extraction_request cfg reading_text]
               /\ no_error (page s))).
  pose proof Hd as Hd'. rewrite draw_tarot_cards_checked in Hd'.
  injection Hd' as _ <-. cbn [app] in Hd, Hread.
  pose proof Hread as Hr'. rewrite get_tarot_reading_checked in Hr'.
  injection Hr' as _ <-. cbn [app] in Hread, Hex.
  pose proof Hex as He'. rewrite extract_genres_checked in He'.
  injection He' as _ <-. cbn [app] in Hex.
  unfold script. do 10 step. rewrite Hc. unfold main_block. step. rewrite Hm.
  apply after_ret. cbv beta iota. step. step.
  apply after_try; cbn [sent page]; intros a h H; rewrite Hd in H; [|discriminate].
  injection H as <- <-. cbv beta iota. step.
  apply after_eval; intros a H; rewrite Hcards in H; [|discriminate].
  injection H as <-. step.
  apply after_eval; intros a H; rewrite Hnames in H; [|discriminate].
  injection H as <-. step. step.
  rewrite (proj2 (Z.ltb_lt 0 (num_cards c))) by lia.
  apply after_show. cbv beta iota. cbn [sent page]. apply after_bind. unfold after.
  match goal with
  | |- context [for_each _ _ srv ?s] =>
      destruct (show_cards_bounds R (num_cards c) cards Hall 0%nat srv s)
        as (ws & E & Hws & Hl & Ho); [lia|]
  end.
  rewrite E, Ho. rewrite (proj2 (Z.leb_le _ _)) by (cbn [Nat.add]; lia).
  cbv beta iota.
  step. step.
  apply after_try; cbn [sent page]; intros a h H; unfold bind, lift in H;
    rewrite Hstr, Hread in H; [|discriminate].
  injection H as <- <-. cbv beta iota. do 4 step.
  apply after_try; cbn [sent page as_str]; intros a h H; unfold bind, lift in H;
    rewrite Hex in H; [|discriminate].
  injection H as <- <-. cbv beta iota. step. step.
  apply after_eval; intros a H; rewrite Hbad in H; [discriminate|].
  injection H as <-. cbn [sent page]. repeat split. unfold no_error. no_err.
Qed.

Lemma unvalidated_genres_leave_run_witness :
  fst (run Scenario.plain Scenario.keys Scenario.pressed
           (Scenario.service Scenario.a_number Scenario.catalogue))
  = Uncaught TypeError
  /\ sent (snd (run Scenario.plain Scenario.keys Scenario.pressed
                    (Scenario.service Scenario.a_number Scenario.catalogue)))
     = [draw_request (num_cards Scenario.pressed);
        reading_request Scenario.keys ["The Fool"; "The Sun"] (context Scenario.pressed);
        extraction_request Scenario.keys "A calm reading."]
  /\ no_error
       (page (snd (run Scenario.plain Scenario.keys Scenario.pressed
                       (Scenario.service Scenario.a_number Scenario.catalogue)))).
Proof.
  eapply (unvalidated_genres_leave_run Scenario.plain Scenario.keys Scenario.pressed
            (Scenario.service Scenario.a_number Scenario.catalogue)).
  - reflexivity.
  - reflexivity.
  - vm_compute. reflexivity.
  - reflexivity.
  - repeat constructor; eexists _, _, _, _; repeat split; reflexivity.
  - reflexivity.
  - cbn. lia.
  - reflexivity.
  - reflexivity.
  - vm_compute. reflexivity.
  - vm_compute. reflexivity.
  - reflexivity.
Defined.
